(** * mcp_firebase_server: the Firestore tools and their initialization

    A shallow embedding of [mcp_firebase_server.py].  The module keeps one
    global, [db], set by [firebase_lifespan] and read by five tools.  Every
    tool is a Python function that may reach the Firestore client, so it is
    written here in a state-and-exception monad over a [world]: the module
    globals, the remote store, the record of the client calls made so far
    and a plan that says which client calls raise.

    [print] only writes to standard output, which nothing below observes;
    the calls to it are left out. *)

From stdpp Require Import gmap strings list fin_maps pretty.

Local Open Scope string_scope.
Local Open Scope list_scope.
Local Open Scope Z_scope.
Local Set Warnings "-register-all".

(** ** Python values *)

(** JSON-compatible values, as the tools receive and return them. *)
Inductive value : Type :=
| VNone
| VBool (b : bool)
| VInt (n : Z)
| VStr (s : string)
| VList (items : list value)
| VDict (items : list (string * value)).

(** A [Dict[str, Any]]: two dicts are equal when they have the same keys
    with the same values, whatever the insertion order. *)
Abbreviation dict := (gmap string value).

(** [bool(d)] for a dict: [len(d) != 0]. *)
Definition dict_truthy (d : dict) : bool := negb (Nat.eqb (size d) 0).

(** [if doc_data:] on the result of [to_dict()], which is [None] or a
    dict: the dict when the test passes.  [None] and the empty dict are both
    falsy. *)
Definition if_truthy (doc_data : option dict) : option dict :=
  match doc_data with
  | None => None
  | Some d => if dict_truthy d then Some d else None
  end.

(** An instance of [Exception], the class the [except Exception] clauses of
    the module catch and the one the Firestore client and the Admin SDK raise
    their errors from; [str e] is Python's [str(e)]. *)
Record exn := Exception { str : string }.

(** What evaluating a Python expression or block ends in. *)
Inductive outcome (A : Type) : Type :=
| Return (a : A)
| Raise (e : exn).
Arguments Return {A} a.
Arguments Raise {A} e.

(** ** Substrings *)

Fixpoint starts_with (p s : string) : bool :=
  match p, s with
  | EmptyString, _ => true
  | String a p', String b s' => if Ascii.eqb a b then starts_with p' s' else false
  | String _ _, EmptyString => false
  end.

(** Python's [needle in hay] on strings. *)
Fixpoint contains (needle hay : string) : bool :=
  starts_with needle hay ||
  match hay with
  | EmptyString => false
  | String _ hay' => contains needle hay'
  end.

(** [hay] has [needle] as a contiguous part. *)
Definition mentions (needle hay : string) : Prop :=
  exists before after, hay = before +:+ needle +:+ after.

(** ** The Firestore client, as the tools use it *)

(** [firestore.Client]: the authenticated handle. *)
Record Client := { project : string }.

Record CollectionReference := { coll_id : string }.

(** [db.collection(c).document(d)]. *)
Record DocumentReference := { ref_collection : string; ref_id : string }.

(** [DocumentSnapshot]: [id], [exists] and [to_dict()], which is [None]
    for a document that does not exist. *)
Record DocumentSnapshot := {
  snap_id : string;
  snap_exists : bool;
  to_dict : option dict
}.

(** The client calls a tool can make. *)
Inductive call : Type :=
| CallStream (collection_name : string) (limit : Z)
| CallAdd (collection_name : string) (document_data : dict)
| CallCollections
| CallDocument (collection_name document_id : string)
| CallGet (doc_ref : DocumentReference)
| CallDocCollections (doc_ref : DocumentReference).

(** The remote store behind the client: the documents of each top-level
    collection, the subcollections under each document path (a path may
    have subcollections although no document is stored at it), and the
    identifiers the store hands out to added documents. *)
Record firestore := {
  documents : gmap string (gmap string dict);
  subcollections : gmap (string * string) (list string);
  auto_id : nat -> string;
  writes : nat
}.

(** The state a tool runs in. *)
Record world := {
  db : option Client;
  firebase_storage_bucket_name : option string;
  firebase_apps : bool;
  store : firestore;
  calls : list call;
  faults : list call -> call -> option exn
}.

Definition set_db (c : Client) (w : world) : world :=
  {| db := Some c;
     firebase_storage_bucket_name := firebase_storage_bucket_name w;
     firebase_apps := firebase_apps w;
     store := store w; calls := calls w; faults := faults w |}.

Definition set_bucket (b : option string) (w : world) : world :=
  {| db := db w;
     firebase_storage_bucket_name := b;
     firebase_apps := firebase_apps w;
     store := store w; calls := calls w; faults := faults w |}.

Definition set_apps (b : bool) (w : world) : world :=
  {| db := db w;
     firebase_storage_bucket_name := firebase_storage_bucket_name w;
     firebase_apps := b;
     store := store w; calls := calls w; faults := faults w |}.

Definition set_store (s : firestore) (w : world) : world :=
  {| db := db w;
     firebase_storage_bucket_name := firebase_storage_bucket_name w;
     firebase_apps := firebase_apps w;
     store := s; calls := calls w; faults := faults w |}.

Definition log_call (c : call) (w : world) : world :=
  {| db := db w;
     firebase_storage_bucket_name := firebase_storage_bucket_name w;
     firebase_apps := firebase_apps w;
     store := store w; calls := calls w ++ [c]; faults := faults w |}.

(** ** The monad of Python code *)

Definition M (A : Type) : Type := world -> outcome A * world.

Definition ret {A} (a : A) : M A := fun w => (Return a, w).

Definition bind {A B} (m : M A) (f : A -> M B) : M B := fun w =>
  match m w with
  | (Return a, w') => f a w'
  | (Raise e, w') => (Raise e, w')
  end.

(** [try: body / except Exception as e: handler e]. *)
Definition try_except {A} (body : M A) (handler : exn -> M A) : M A := fun w =>
  match body w with
  | (Return a, w') => (Return a, w')
  | (Raise e, w') => handler e w'
  end.

(** Reading the global [db]. *)
Definition global_db : M (option Client) := fun w => (Return (db w), w).

Notation "x <- m ;; k" := (bind m (fun x => k))
  (at level 100, m at next level, right associativity, only parsing).

(** [m] raises when run in [w]. *)
Definition raises {A} (m : M A) (w : world) : Prop :=
  exists e w', m w = (Raise e, w').

(** ** The store double

    The Firestore service is not part of the module.  It is modelled by an
    in-memory store that offers the client methods the tools call:
    [collection(c).limit(n).stream()], [collection(c).add(fields)],
    [collections()], [collection(c).document(d)], [doc_ref.get()] and
    [doc_ref.collections()].  Every call is recorded in [calls], and the
    plan [faults] can make any call raise any exception, given the calls
    made before it. *)

(** The fields stored for document [d] of collection [c], if it exists. *)
Definition stored_fields (s : firestore) (c d : string) : option dict :=
  default ∅ (documents s !! c) !! d.

(** The subcollections under the path of document [d] of collection [c]. *)
Definition subcollection_ids (s : firestore) (c d : string) : list string :=
  default [] (subcollections s !! (c, d)).

(** The top-level collections: those that hold a document. *)
Definition top_level_collections (s : firestore) : list string :=
  (filter (fun entry : string * gmap string dict => entry.2 ≠ ∅)
          (map_to_list (documents s))).*1.

(** The documents of a collection, in the store's iteration order. *)
Definition collection_documents (s : firestore) (c : string) : list (string * dict) :=
  map_to_list (default ∅ (documents s !! c)).

Definition snapshot_of (entry : string * dict) : DocumentSnapshot :=
  {| snap_id := entry.1; snap_exists := true; to_dict := Some entry.2 |}.

(** The store after document [i] of collection [c] was created. *)
Definition created (s : firestore) (c i : string) (data : dict) : firestore :=
  {| documents := <[c := <[i := data]> (default ∅ (documents s !! c))]> (documents s);
     subcollections := subcollections s;
     auto_id := auto_id s;
     writes := S (writes s) |}.

(** The reference to document [d] of collection [c]. *)
Definition doc_ref_of (c d : string) : DocumentReference :=
  {| ref_collection := c; ref_id := d |}.

(** A client call: it is recorded, raises what the fault plan says, and
    otherwise does what the store does. *)
Definition invoke {A} (c : call) (sem : firestore -> outcome (A * firestore)) : M A :=
  fun w =>
    let w1 := log_call c w in
    match faults w (calls w) c with
    | Some e => (Raise e, w1)
    | None =>
        match sem (store w) with
        | Return (a, s') => (Return a, set_store s' w1)
        | Raise e => (Raise e, w1)
        end
    end.

(** [db.collection(c).limit(n).stream()], iterated to its end: at most
    [n] documents, in the store's order; the service rejects a negative
    limit.  The documents are fetched while the [for] loop runs; an
    exception in the middle of the loop leaves the tool through the same
    handler as one at its start, with the documents gathered so far
    dropped. *)
Definition stream (client : Client) (c : string) (n : Z) : M (list DocumentSnapshot) :=
  invoke (CallStream c n) (fun s =>
    if n <? 0 then Raise (Exception "400 limit is negative")
    else Return (take (Z.to_nat n) (snapshot_of <$> collection_documents s c), s)).

(** [db.collection(c).add(data)]: the store picks the identifier and
    creates the document, which fails when the identifier is taken. *)
Definition add (client : Client) (c : string) (data : dict) : M (nat * DocumentReference) :=
  invoke (CallAdd c data) (fun s =>
    let new_id := auto_id s (writes s) in
    match stored_fields s c new_id with
    | Some _ => Raise (Exception "409 Document already exists")
    | None => Return ((writes s, doc_ref_of c new_id), created s c new_id data)
    end).

(** [db.collections()], iterated: the collections that hold a document. *)
Definition collections (client : Client) : M (list CollectionReference) :=
  invoke CallCollections (fun s =>
    Return ((fun name => {| coll_id := name |}) <$> top_level_collections s, s)).

(** [db.collection(c).document(d)]: a reference, built without reading
    the store. *)
Definition document (client : Client) (c d : string) : M DocumentReference :=
  invoke (CallDocument c d) (fun s => Return (doc_ref_of c d, s)).

(** [doc_ref.get()]. *)
Definition get (doc_ref : DocumentReference) : M DocumentSnapshot :=
  invoke (CallGet doc_ref) (fun s =>
    let fields := stored_fields s (ref_collection doc_ref) (ref_id doc_ref) in
    Return ({| snap_id := ref_id doc_ref;
               snap_exists := bool_decide (is_Some fields);
               to_dict := fields |}, s)).

(** [doc_ref.collections()], iterated. *)
Definition doc_collections (doc_ref : DocumentReference) : M (list CollectionReference) :=
  invoke (CallDocCollections doc_ref) (fun s =>
    Return ((fun name => {| coll_id := name |}) <$>
              subcollection_ids s (ref_collection doc_ref) (ref_id doc_ref), s)).

(** ** The tools *)

Definition not_initialized_long : string :=
  "Firestore not initialized. Check server logs and serviceAccountKey.json.".

Definition not_initialized_short : string :=
  "Firestore not initialized. Check server logs.".

(** Lines 94 to 98: the loop over the streamed snapshots. *)
Fixpoint gather (docs_ref : list DocumentSnapshot) (documents : list dict) : list dict :=
  match docs_ref with
  | [] => documents
  | doc :: rest =>
      let doc_data := to_dict doc in
      match if_truthy doc_data with
      | Some doc_data =>
          gather rest (documents ++ [<["id" := VStr (snap_id doc)]> doc_data])
      | None => gather rest documents
      end
  end.

(** Lines 93 to 100: the block under [try]. *)
Definition query_try (db : Client) (collection_name : string) (limit : Z)
  : M (list dict) :=
  docs_ref <- stream db collection_name limit ;;
  ret (gather docs_ref []).

Definition query_failed (collection_name : string) (e : exn) : string :=
  "Failed to query collection '" +:+ collection_name +:+ "': " +:+ str e.

Definition query_firestore_collection (collection_name : string) (limit : Z)
  : M (list dict) :=
  db <- global_db ;;
  match db with
  | None => ret [ {[ "error" := VStr not_initialized_long ]} ]
  | Some db =>
      try_except (query_try db collection_name limit)
        (fun e => ret [ {[ "error" := VStr (query_failed collection_name e) ]} ])
  end.

(** Lines 125 to 127. *)
Definition add_try (db : Client) (collection_name : string) (document_data : dict)
  : M dict :=
  added <- add db collection_name document_data ;;
  let '(timestamp, doc_ref) := added in
  ret {[ "success" := VBool true;
         "id" := VStr (ref_id doc_ref);
         "message" := VStr ("Document added to '" +:+ collection_name +:+ "'") ]}.

Definition add_failed (collection_name : string) (e : exn) : string :=
  "Failed to add document to '" +:+ collection_name +:+ "': " +:+ str e.

Definition add_document_to_firestore (collection_name : string) (document_data : dict)
  : M dict :=
  db <- global_db ;;
  match db with
  | None => ret {[ "success" := VBool false; "error" := VStr not_initialized_long ]}
  | Some db =>
      try_except (add_try db collection_name document_data)
        (fun e => ret {[ "success" := VBool false;
                         "error" := VStr (add_failed collection_name e) ]})
  end.

(** Lines 149 to 152: one [{"id": coll_ref.id}] appended per collection. *)
Definition list_collections_try (db : Client) : M (list dict) :=
  coll_refs <- collections db ;;
  ret ((fun coll_ref => {[ "id" := VStr (coll_id coll_ref) ]}) <$> coll_refs).

Definition list_collections_failed (e : exn) : string :=
  "Failed to list collections: " +:+ str e.

Definition list_firestore_collections : M (list dict) :=
  db <- global_db ;;
  match db with
  | None => ret [ {[ "error" := VStr not_initialized_short ]} ]
  | Some db =>
      try_except (list_collections_try db)
        (fun e => ret [ {[ "error" := VStr (list_collections_failed e) ]} ])
  end.

Definition not_found (collection_name document_id : string) : string :=
  "Document '" +:+ document_id +:+ "' not found in '" +:+ collection_name +:+ "'.".

(** Lines 177 to 190. *)
Definition get_try (db : Client) (collection_name document_id : string) : M dict :=
  doc_ref <- document db collection_name document_id ;;
  doc <- get doc_ref ;;
  if snap_exists doc then
    let doc_data := to_dict doc in
    match if_truthy doc_data with
    | Some doc_data => ret (<["id" := VStr (snap_id doc)]> doc_data)
    | None =>
        ret {[ "id" := VStr (snap_id doc);
               "data" := VNone;
               "message" := VStr "Document exists but contains no data." ]}
    end
  else ret {[ "error" := VStr (not_found collection_name document_id) ]}.

Definition get_failed (collection_name document_id : string) (e : exn) : string :=
  "Failed to get document '" +:+ document_id +:+ "' from '" +:+ collection_name
  +:+ "': " +:+ str e.

Definition get_firestore_document (collection_name document_id : string) : M dict :=
  db <- global_db ;;
  match db with
  | None => ret {[ "error" := VStr not_initialized_short ]}
  | Some db =>
      try_except (get_try db collection_name document_id)
        (fun e => ret {[ "error" := VStr (get_failed collection_name document_id e) ]})
  end.

(** Lines 215 to 230. *)
Definition subcollections_try (db : Client) (collection_name document_id : string)
  : M (list dict) :=
  doc_ref <- document db collection_name document_id ;;
  doc_snapshot <- get doc_ref ;;
  if negb (snap_exists doc_snapshot) then
    ret [ {[ "error" := VStr (not_found collection_name document_id) ]} ]
  else
    coll_refs <- doc_collections doc_ref ;;
    ret ((fun coll_ref => {[ "id" := VStr (coll_id coll_ref) ]}) <$> coll_refs).

Definition subcollections_failed (document_id : string) (e : exn) : string :=
  "Failed to list subcollections for '" +:+ document_id +:+ "': " +:+ str e.

Definition list_document_subcollections (collection_name document_id : string)
  : M (list dict) :=
  db <- global_db ;;
  match db with
  | None => ret [ {[ "error" := VStr not_initialized_short ]} ]
  | Some db =>
      try_except (subcollections_try db collection_name document_id)
        (fun e => ret [ {[ "error" := VStr (subcollections_failed document_id e) ]} ])
  end.

(** ** Initialization *)

(** What [firebase_lifespan] reads from the process and the Admin SDK:
    [os.environ.get], [os.path.dirname(__file__)], [os.path.exists],
    [credentials.Certificate], [firebase_admin.initialize_app] and
    [firestore.client()]. *)
Record environment := {
  environ : string -> option string;
  module_dir : string;
  path_exists : string -> bool;
  Certificate : string -> outcome string;
  initialize_app : string -> outcome unit;
  firestore_client : outcome Client
}.

(** [os.path.join(a, b)] for a relative [b]. *)
Definition path_join (a b : string) : string :=
  if String.eqb a "" then b
  else if String.eqb (String.substring (String.length a - 1)%nat 1 a) "/" then a +:+ b
  else a +:+ "/" +:+ b.

(** The [yield] the generator stops at: line 47, line 52 or line 61. *)
Inductive lifespan_yield : Type :=
| Ready
| CredentialsInvalid
| CredentialFileMissing.

(** The value of an SDK call, in the monad. *)
Definition sdk {A} (r : outcome A) : M A := fun w => (r, w).

Definition global_apps : M bool := fun w => (Return (firebase_apps w), w).

(** Lines 39 to 47: the block under [try], up to its [yield]. *)
Definition lifespan_try (env : environment) (effective_service_account_path : string)
  : M lifespan_yield :=
  cred <- sdk (Certificate env effective_service_account_path) ;;
  apps <- global_apps ;;
  _ <- (if negb apps
        then (_ <- sdk (initialize_app env cred) ;;
              fun w => (Return tt, set_apps true w))
        else ret tt) ;;
  client <- sdk (firestore_client env) ;;
  _ <- (fun w => (Return tt, set_db client w)) ;;
  ret Ready.

(** Lines 21 to 26: the path given by the environment, or the local file
    when the variable is unset or empty. *)
Definition effective_service_account_path (env : environment) : string :=
  let service_account_path_env := environ env "SERVICE_ACCOUNT_KEY_PATH" in
  let local_file := path_join (module_dir env) "serviceAccountKey.json" in
  match service_account_path_env with
  | Some path => if String.eqb path "" then local_file else path
  | None => local_file
  end.

(** [firebase_lifespan], from its start to the [yield] that lets the server
    serve. *)
Definition firebase_lifespan (env : environment) : M lifespan_yield :=
  _ <- (fun w => (Return tt, set_bucket (environ env "FIREBASE_STORAGE_BUCKET") w)) ;;
  let effective_service_account_path := effective_service_account_path env in
  if path_exists env effective_service_account_path then
    try_except (lifespan_try env effective_service_account_path)
      (fun e => ret CredentialsInvalid)
  else ret CredentialFileMissing.

(** The module as loaded: [db = None], no bucket name. *)
Definition loaded (s : firestore) (plan : list call -> call -> option exn) : world :=
  {| db := None; firebase_storage_bucket_name := None; firebase_apps := false;
     store := s; calls := []; faults := plan |}.

(** ** Worlds to run the tools in *)

Definition no_faults : list call -> call -> option exn := fun _ _ => None.

(** A store with a collection "users" of two documents, one of them
    without fields and one with a field called "id", and a subcollection
    under a path where no document is stored. *)
Definition shop : firestore :=
  {| documents :=
       {[ "users" := {[ "u1" := (∅ : dict);
                        "u2" := ({[ "name" := VStr "ann"; "id" := VInt 7 ]} : dict) ]} ]};
     subcollections := {[ ("users", "ghost") := ["orders"] ]};
     auto_id := fun n => "auto" +:+ pretty n;
     writes := 0 |}.

Definition serving (s : firestore) (plan : list call -> call -> option exn) : world :=
  set_db {| project := "demo" |} (loaded s plan).

(** The plan under which every [get()] fails. *)
Definition get_fails : list call -> call -> option exn := fun _ c =>
  match c with
  | CallGet _ => Some (Exception "503 unavailable")
  | _ => None
  end.

(** A store without documents. *)
Definition blank : firestore :=
  {| documents := ∅; subcollections := ∅;
     auto_id := fun n => "auto" +:+ pretty n; writes := 0 |}.

(** Three environments: no key file; a key file that
    [credentials.Certificate] rejects; a key file that works. *)
Definition no_key_file : environment :=
  {| environ := fun _ => None;
     module_dir := "/srv/app";
     path_exists := fun _ => false;
     Certificate := fun _ => Return "certificate";
     initialize_app := fun _ => Return tt;
     firestore_client := Return {| project := "demo" |} |}.

Definition bad_key_file : environment :=
  {| environ := fun name =>
       if String.eqb name "SERVICE_ACCOUNT_KEY_PATH" then Some "/etc/key.json" else None;
     module_dir := "/srv/app";
     path_exists := String.eqb "/etc/key.json";
     Certificate := fun _ => Raise (Exception "Invalid service account certificate");
     initialize_app := fun _ => Return tt;
     firestore_client := Return {| project := "demo" |} |}.

Definition good_key_file : environment :=
  {| environ := fun name =>
       if String.eqb name "SERVICE_ACCOUNT_KEY_PATH" then Some "" else None;
     module_dir := "/srv/app";
     path_exists := String.eqb "/srv/app/serviceAccountKey.json";
     Certificate := fun _ => Return "certificate";
     initialize_app := fun _ => Return tt;
     firestore_client := Return {| project := "demo" |} |}.

(** ** Results and properties the statements use *)

(** What the [try] block of [get_firestore_document] returns for the stored
    state of the document. *)
Definition get_result (c d : string) (stored : option dict) : dict :=
  match stored with
  | Some fields =>
      if dict_truthy fields then <["id" := VStr d]> fields
      else {[ "id" := VStr d; "data" := VNone;
              "message" := VStr "Document exists but contains no data." ]}
  | None => {[ "error" := VStr (not_found c d) ]}
  end.

(** The [{"id": ...}] mappings of a listing. *)
Definition id_mappings (names : list string) : list dict :=
  (fun name => {[ "id" := VStr name ]}) <$> names.

(** The payload a listing tool returns on failure: one mapping whose only
    key is "error". *)
Definition is_error_payload (p : list dict) : Prop :=
  exists msg, p = [ {[ "error" := VStr msg ]} ].

(** [m] does not assign the global [db]. *)
Definition keeps_db {A} (m : M A) : Prop := forall w, db (m w).2 = db w.

(** ** The tool registry and the lifespan generator *)

(** A tool call as the transport delivers it: the name of one of the five
    functions registered with [@mcp_server.tool()] and its arguments;
    [limit] may be left out. *)
Inductive request : Type :=
| ReqQuery (collection_name : string) (limit : option Z)
| ReqAdd (collection_name : string) (document_data : dict)
| ReqListCollections
| ReqGet (collection_name document_id : string)
| ReqListSubcollections (collection_name document_id : string).

(** What a tool returns: a list of mappings or one mapping. *)
Inductive response : Type :=
| RespList (items : list dict)
| RespDict (item : dict).

(** Calling the registered function; [limit: int = 50]. *)
Definition call_tool (r : request) : M response :=
  match r with
  | ReqQuery c limit =>
      p <- query_firestore_collection c (default 50 limit) ;; ret (RespList p)
  | ReqAdd c data => p <- add_document_to_firestore c data ;; ret (RespDict p)
  | ReqListCollections => p <- list_firestore_collections ;; ret (RespList p)
  | ReqGet c d => p <- get_firestore_document c d ;; ret (RespDict p)
  | ReqListSubcollections c d =>
      p <- list_document_subcollections c d ;; ret (RespList p)
  end.

(** The tools are [async def] functions without an [await]: each call runs
    to its end before the next one starts. *)
Fixpoint serve (requests : list request) : M (list response) :=
  match requests with
  | [] => ret []
  | r :: rest =>
      p <- call_tool r ;;
      ps <- serve rest ;;
      ret (p :: ps)
  end.

(** A generator that has run until it finished, by returning or raising, or
    until a [yield].  A suspended generator is resumed in the world of that
    moment, by [next] ([None]) or by an exception thrown into it. *)
Inductive generator (L A : Type) : Type :=
| Finished (r : outcome A) (w : world)
| Yielded (at_yield : L) (w : world) (resume : option exn -> world -> generator L A).
Arguments Finished {L A} r w.
Arguments Yielded {L A} at_yield w resume.

Definition G (L A : Type) : Type := world -> generator L A.

(** Plain code inside a generator. *)
Definition glift {L A} (m : M A) : G L A := fun w =>
  let (r, w') := m w in Finished r w'.

(** The statement [yield], labelled with its place. *)
Definition gyield {L} (at_yield : L) : G L unit := fun w =>
  Yielded at_yield w (fun thrown w' =>
    match thrown with
    | None => Finished (Return tt) w'
    | Some e => Finished (Raise e) w'
    end).

Fixpoint gthen {L A B} (g : generator L A) (f : A -> G L B) : generator L B :=
  match g with
  | Finished (Return a) w => f a w
  | Finished (Raise e) w => Finished (Raise e) w
  | Yielded at_yield w resume =>
      Yielded at_yield w (fun thrown w' => gthen (resume thrown w') f)
  end.

Definition gbind {L A B} (m : G L A) (f : A -> G L B) : G L B :=
  fun w => gthen (m w) f.

(** [try: body / except Exception as e: handler e] around code that may
    yield: an exception thrown in at a [yield] of the body is raised there,
    inside the [try]. *)
Fixpoint gcatch {L A} (g : generator L A) (handler : exn -> G L A) : generator L A :=
  match g with
  | Finished (Return a) w => Finished (Return a) w
  | Finished (Raise e) w => handler e w
  | Yielded at_yield w resume =>
      Yielded at_yield w (fun thrown w' => gcatch (resume thrown w') handler)
  end.

Definition gtry_except {L A} (body : G L A) (handler : exn -> G L A) : G L A :=
  fun w => gcatch (body w) handler.

(** [firebase_lifespan] as the generator it is, lines 19 to 61.  The
    [finally] clause only prints. *)
Definition firebase_lifespan_generator (env : environment) : G lifespan_yield unit :=
  gbind (glift (fun w =>
           (Return tt, set_bucket (environ env "FIREBASE_STORAGE_BUCKET") w)))
    (fun _ =>
       let effective_service_account_path := effective_service_account_path env in
       if path_exists env effective_service_account_path then
         gtry_except
           (gbind (glift (lifespan_try env effective_service_account_path))
                  (fun at_yield => gyield at_yield))
           (fun e => gyield CredentialsInvalid)
       else gyield CredentialFileMissing).

(** The mapping lines 95 to 98 append for a snapshot, if they append one. *)
Definition merged (doc : DocumentSnapshot) : option dict :=
  (fun doc_data : dict => <["id" := VStr (snap_id doc)]> doc_data)
    <$> if_truthy (to_dict doc).

(** [m] does not write to the store. *)
Definition keeps_store {A} (m : M A) : Prop := forall w, store (m w).2 = store w.

(** An environment whose [initialize_app] fails. *)
Definition app_exists : environment :=
  {| environ := fun _ => None;
     module_dir := "/srv/app";
     path_exists := fun _ => true;
     Certificate := fun _ => Return "certificate";
     initialize_app := fun _ => Raise (Exception "The default Firebase app already exists.");
     firestore_client := Return {| project := "demo" |} |}.

(** A store whose one document has a field called "error". *)
Definition incident_log : firestore :=
  {| documents := {[ "incidents" := {[ "i1" := ({[ "error" := VStr "disk full" ]} : dict) ]} ]};
     subcollections := ∅;
     auto_id := fun n => "auto" +:+ pretty n;
     writes := 0 |}.

(** What a tool answers when the handle is unset. *)
Definition not_initialized_response (r : request) : response :=
  match r with
  | ReqQuery _ _ => RespList [ {[ "error" := VStr not_initialized_long ]} ]
  | ReqAdd _ _ =>
      RespDict {[ "success" := VBool false; "error" := VStr not_initialized_long ]}
  | ReqListCollections => RespList [ {[ "error" := VStr not_initialized_short ]} ]
  | ReqGet _ _ => RespDict {[ "error" := VStr not_initialized_short ]}
  | ReqListSubcollections _ _ =>
      RespList [ {[ "error" := VStr not_initialized_short ]} ]
  end.

(** A process in which a Firebase app is registered already. *)
Definition app_registered (w : world) : world := set_apps true w.

(** The working key file, with a bucket name in the environment. *)
Definition good_key_file_with_bucket : environment :=
  {| environ := fun name =>
       if String.eqb name "SERVICE_ACCOUNT_KEY_PATH" then Some ""
       else if String.eqb name "FIREBASE_STORAGE_BUCKET" then Some "demo.appspot.com"
       else None;
     module_dir := module_dir good_key_file;
     path_exists := path_exists good_key_file;
     Certificate := Certificate good_key_file;
     initialize_app := initialize_app good_key_file;
     firestore_client := firestore_client good_key_file |}.

(** ** Substring lemmas *)

Lemma starts_with_app (p rest : string) : starts_with p (p +:+ rest) = true.
Proof.
  induction p as [|a p IH]; simpl; [reflexivity|].
  rewrite Ascii.eqb_refl. exact IH.
Qed.

Lemma starts_with_inv (p s : string) :
  starts_with p s = true -> exists rest, s = p +:+ rest.
Proof.
  revert s. induction p as [|a p IH]; intros s H; simpl in *.
  - exists s. reflexivity.
  - destruct s as [|b s]; [discriminate|].
    destruct (Ascii.eqb a b) eqn:E; [|discriminate].
    apply Ascii.eqb_eq in E. subst b.
    destruct (IH _ H) as [rest ->]. exists rest. reflexivity.
Qed.

Lemma contains_here (needle rest : string) : contains needle (needle +:+ rest) = true.
Proof.
  destruct (needle +:+ rest) eqn:E; simpl; rewrite <- E, starts_with_app; reflexivity.
Qed.

Lemma contains_skip (needle before hay : string) :
  contains needle hay = true -> contains needle (before +:+ hay) = true.
Proof.
  intros H. induction before as [|a before IH]; simpl; [exact H|].
  rewrite IH. apply orb_true_r.
Qed.

Lemma contains_mentions (needle hay : string) :
  contains needle hay = true <-> mentions needle hay.
Proof.
  split.
  - induction hay as [|a hay IH]; simpl; intros H.
    + rewrite orb_false_r in H. destruct (starts_with_inv _ _ H) as [rest ->].
      exists "", rest. reflexivity.
    + apply orb_true_iff in H as [H|H].
      * destruct (starts_with_inv _ _ H) as [rest ->]. exists "", rest. reflexivity.
      * destruct (IH H) as (before & after & ->).
        exists (String a before), after. reflexivity.
  - intros (before & after & ->). apply contains_skip, contains_here.
Qed.

Create HintDb strings.
#[local] Hint Resolve contains_here contains_skip : strings.

(** ** Running the monad *)

Lemma outcome_cases {A} (m : M A) (w : world) :
  (exists a w', m w = (Return a, w')) \/ raises m w.
Proof.
  unfold raises. destruct (m w) as [[a|e] w']; eauto.
Qed.

Lemma try_except_returns {A} (body : M A) (handler : exn -> M A) w a w' :
  body w = (Return a, w') -> try_except body handler w = (Return a, w').
Proof. unfold try_except. intros ->. reflexivity. Qed.

Lemma try_except_handles {A} (body : M A) (handler : exn -> M A) w e w' :
  body w = (Raise e, w') -> try_except body handler w = handler e w'.
Proof. unfold try_except. intros ->. reflexivity. Qed.

Lemma not_raises_returns {A} (m : M A) (w : world) :
  ~ raises m w -> exists a w', m w = (Return a, w').
Proof. destruct (outcome_cases m w) as [H|H]; [auto|contradiction]. Qed.

Lemma invoke_returns {A} (c : call) (sem : firestore -> outcome (A * firestore)) w a w' :
  invoke c sem w = (Return a, w') ->
  faults w (calls w) c = None /\
  exists s', sem (store w) = Return (a, s') /\ w' = set_store s' (log_call c w).
Proof.
  unfold invoke. destruct (faults w (calls w) c); [discriminate|].
  destruct (sem (store w)) as [[a' s']|e]; [|discriminate].
  intros [= -> <-]. eauto.
Qed.

Lemma invoke_faulted {A} (c : call) (sem : firestore -> outcome (A * firestore)) w e :
  faults w (calls w) c = Some e -> invoke c sem w = (Raise e, log_call c w).
Proof. unfold invoke. intros ->. reflexivity. Qed.

(** Split on what the fault plan says for the next client call. *)
Ltac case_fault :=
  match goal with
  | |- context [faults ?w ?history ?c] =>
      let E := fresh "Hplan" in destruct (faults w history c) eqn:E
  end.

(** A tool whose handle is set runs its [try] statement. *)
Ltac with_handle H :=
  unfold query_firestore_collection, add_document_to_firestore,
    list_firestore_collections, get_firestore_document,
    list_document_subcollections, bind, global_db;
  rewrite H.

(** ** The handle is unset *)

(** C1. With [db] unset, each of the five tools returns its "Firestore not
    initialized" payload, a mapping or a one-element list of a mapping with
    an "error" key, and leaves the world as it found it: the record of
    client calls and the store are those of before, so no store call was
    made. *)
Theorem unset_handle_error_without_store_call (w : world) (Hunset : db w = None) :
  (forall c n,
      query_firestore_collection c n w
      = (Return [ {[ "error" := VStr not_initialized_long ]} ], w)) /\
  (forall c data,
      add_document_to_firestore c data w
      = (Return {[ "success" := VBool false; "error" := VStr not_initialized_long ]}, w)
      /\ ({[ "success" := VBool false; "error" := VStr not_initialized_long ]} : dict)
           !! "error" = Some (VStr not_initialized_long)) /\
  list_firestore_collections w
  = (Return [ {[ "error" := VStr not_initialized_short ]} ], w) /\
  (forall c d,
      get_firestore_document c d w
      = (Return {[ "error" := VStr not_initialized_short ]}, w)) /\
  (forall c d,
      list_document_subcollections c d w
      = (Return [ {[ "error" := VStr not_initialized_short ]} ], w)) /\
  contains "Firestore not initialized" not_initialized_long = true /\
  contains "Firestore not initialized" not_initialized_short = true.
Proof.
  repeat split; intros; try (with_handle Hunset; reflexivity); reflexivity.
Qed.

Lemma unset_handle_error_without_store_call_witness :
  db (loaded shop get_fails) = None /\
  calls (list_document_subcollections "users" "u1" (loaded shop get_fails)).2 = [] /\
  (list_document_subcollections "users" "u1" (loaded shop get_fails)).1
  = Return [ {[ "error" := VStr not_initialized_short ]} ].
Proof.
  pose proof (unset_handle_error_without_store_call (loaded shop get_fails) eq_refl)
    as (_ & _ & _ & _ & H & _).
  rewrite (H "users" "u1"). repeat split; reflexivity.
Defined.

(** ** Querying a collection *)

Lemma dict_truthy_nonempty (d : dict) : dict_truthy d = true <-> d ≠ ∅.
Proof.
  unfold dict_truthy. rewrite negb_true_iff, Nat.eqb_neq.
  by rewrite map_size_empty_iff.
Qed.

Lemma if_truthy_Some (doc_data : option dict) (d : dict) :
  if_truthy doc_data = Some d <-> doc_data = Some d /\ d ≠ ∅.
Proof.
  unfold if_truthy. destruct doc_data as [d'|].
  - destruct (dict_truthy d') eqn:E.
    + apply dict_truthy_nonempty in E. split.
      * intros [= <-]. done.
      * intros [Hd _]. exact Hd.
    + split; [discriminate|]. intros [[= ->] Hne].
      apply dict_truthy_nonempty in Hne. congruence.
  - split; [discriminate|]. intros [? _]. discriminate.
Qed.

Lemma if_truthy_empty : if_truthy (Some ∅) = None.
Proof. reflexivity. Qed.

Lemma gather_acc (docs_ref : list DocumentSnapshot) (acc : list dict) :
  gather docs_ref acc = acc ++ gather docs_ref [].
Proof.
  revert acc. induction docs_ref as [|doc rest IH]; intros acc; simpl.
  - by rewrite List.app_nil_r.
  - destruct (if_truthy (to_dict doc)) as [d|]; [|apply IH].
    rewrite (IH (acc ++ _)), (IH [_]). by rewrite <- List.app_assoc.
Qed.

(** Every gathered mapping is the field mapping of a streamed snapshot
    with "id" set to the snapshot's identifier. *)
Lemma gather_elem (docs_ref : list DocumentSnapshot) (d : dict) :
  d ∈ gather docs_ref [] ->
  exists doc fields,
    doc ∈ docs_ref /\ to_dict doc = Some fields /\ fields ≠ ∅ /\
    d = <["id" := VStr (snap_id doc)]> fields.
Proof.
  induction docs_ref as [|doc rest IH]; simpl; intros Hin.
  - by apply elem_of_nil in Hin.
  - destruct (if_truthy (to_dict doc)) as [fields|] eqn:E.
    + rewrite gather_acc in Hin. simpl in Hin.
      apply elem_of_cons in Hin as [->|Hin].
      * apply if_truthy_Some in E as [E Hne].
        exists doc, fields. split; [left|done].
      * destruct (IH Hin) as (doc' & fields' & ? & ?).
        exists doc', fields'. split; [by right|done].
    + destruct (IH Hin) as (doc' & fields' & ? & ?).
      exists doc', fields'. split; [by right|done].
Qed.

(** When every streamed snapshot has fields, one mapping is gathered per
    snapshot. *)
Lemma gather_length (docs_ref : list DocumentSnapshot) :
  Forall (fun doc => exists fields, to_dict doc = Some fields /\ fields ≠ ∅) docs_ref ->
  length (gather docs_ref []) = length docs_ref.
Proof.
  induction 1 as [|doc rest (fields & Hd & Hne) _ IH]; simpl; [done|].
  assert (if_truthy (to_dict doc) = Some fields) as -> by by apply if_truthy_Some.
  rewrite gather_acc. simpl. by rewrite IH.
Qed.

Lemma stream_returns client c n w docs_ref w' :
  stream client c n w = (Return docs_ref, w') ->
  0 <= n /\
  docs_ref = take (Z.to_nat n) (snapshot_of <$> collection_documents (store w) c) /\
  w' = log_call (CallStream c n) w.
Proof.
  unfold stream. intros H. apply invoke_returns in H as (_ & s' & Hsem & ->).
  destruct (Z.ltb_spec n 0); [discriminate|].
  injection Hsem as <- <-. done.
Qed.

Lemma query_try_returns client c n w p w' :
  query_try client c n w = (Return p, w') ->
  0 <= n /\
  p = gather (take (Z.to_nat n) (snapshot_of <$> collection_documents (store w) c)) [] /\
  w' = log_call (CallStream c n) w.
Proof.
  unfold query_try, bind, ret.
  destruct (stream client c n w) as [[docs_ref|e] w1] eqn:E; [|discriminate].
  intros [= <- <-]. apply stream_returns in E as (? & -> & ->). done.
Qed.

Lemma snapshot_in_collection (s : firestore) c n doc :
  doc ∈ take n (snapshot_of <$> collection_documents s c) ->
  snap_exists doc = true /\
  exists fields, to_dict doc = Some fields /\ stored_fields s c (snap_id doc) = Some fields.
Proof.
  intros Hin. apply (subseteq_take n) in Hin.
  apply list_elem_of_fmap in Hin as ([i fields] & -> & Hin).
  apply elem_of_map_to_list in Hin. simpl. eauto.
Qed.

(** C2. A collection of two documents queried with [limit = 2]: the
    document "u1" has no field, its [to_dict()] is the empty dict, the test
    [if doc_data:] fails on it although it is not [None], and one document
    comes back where the limit asks for two. *)
Theorem query_limit_skips_document_without_fields :
  length (collection_documents shop "users") = 2%nat /\
  stored_fields shop "users" "u1" = Some ∅ /\
  (query_firestore_collection "users" 2 (serving shop no_faults)).1
  = Return [ {[ "name" := VStr "ann"; "id" := VStr "u2" ]} ] /\
  calls (query_firestore_collection "users" 2 (serving shop no_faults)).2
  = [CallStream "users" 2].
Proof. vm_compute. done. Qed.

(** Where the first [limit] documents of the collection all have fields,
    the query returns [limit] mappings. *)
Lemma query_limit_documents_with_fields w client c n :
  db w = Some client ->
  0 <= n ->
  faults w (calls w) (CallStream c n) = None ->
  (Z.to_nat n <= length (collection_documents (store w) c))%nat ->
  Forall (fun entry : string * dict => entry.2 ≠ ∅)
         (take (Z.to_nat n) (collection_documents (store w) c)) ->
  exists p, query_firestore_collection c n w = (Return p, log_call (CallStream c n) w)
            /\ length p = Z.to_nat n.
Proof.
  intros Hdb Hn Hplan Hlen Hfields. with_handle Hdb.
  unfold try_except, query_try, bind, ret, stream, invoke. rewrite Hplan.
  destruct (Z.ltb_spec n 0); [lia|]. eexists. split; [reflexivity|].
  rewrite gather_length.
  - rewrite length_take_le; [done|]. by rewrite length_fmap.
  - rewrite <- fmap_take. apply Forall_fmap.
    eapply Forall_impl; [exact Hfields|]. intros [i fields] Hne. simpl in *. eauto.
Qed.

(** ** Getting a document *)

Lemma get_try_cases client c d w :
  raises (get_try client c d) w \/
  get_try client c d w
  = (Return (get_result c d (stored_fields (store w) c d)),
     log_call (CallGet (doc_ref_of c d)) (log_call (CallDocument c d) w)).
Proof.
  unfold raises, get_try, bind, document, get, invoke, ret. simpl.
  case_fault; [left; eauto|]. simpl.
  case_fault; [left; eauto|].
  right. simpl. unfold get_result, if_truthy.
  destruct (stored_fields (store w) c d) as [fields|]; simpl; [|reflexivity].
  destruct (dict_truthy fields); reflexivity.
Qed.

Lemma get_try_runs client c d w :
  ~ raises (get_try client c d) w ->
  get_try client c d w
  = (Return (get_result c d (stored_fields (store w) c d)),
     log_call (CallGet (doc_ref_of c d)) (log_call (CallDocument c d) w)).
Proof. destruct (get_try_cases client c d w); [contradiction|auto]. Qed.

Lemma get_runs client c d w :
  db w = Some client ->
  ~ raises (get_try client c d) w ->
  get_firestore_document c d w
  = (Return (get_result c d (stored_fields (store w) c d)),
     log_call (CallGet (doc_ref_of c d)) (log_call (CallDocument c d) w)).
Proof.
  intros Hdb Hrun. with_handle Hdb.
  apply try_except_returns. by apply get_try_runs.
Qed.

Lemma get_handles client c d w e w' :
  db w = Some client ->
  get_try client c d w = (Raise e, w') ->
  get_firestore_document c d w
  = (Return {[ "error" := VStr (get_failed c d e) ]}, w').
Proof.
  intros Hdb Hraise. with_handle Hdb.
  by rewrite (try_except_handles _ _ _ _ _ Hraise).
Qed.

Lemma query_runs client c n w p w' :
  db w = Some client ->
  query_try client c n w = (Return p, w') ->
  query_firestore_collection c n w = (Return p, w').
Proof. intros Hdb Hrun. with_handle Hdb. by apply try_except_returns. Qed.

Lemma query_handles client c n w e w' :
  db w = Some client ->
  query_try client c n w = (Raise e, w') ->
  query_firestore_collection c n w
  = (Return [ {[ "error" := VStr (query_failed c e) ]} ], w').
Proof.
  intros Hdb Hraise. with_handle Hdb.
  by rewrite (try_except_handles _ _ _ _ _ Hraise).
Qed.

(** C8. With the handle set and no exception from the store: every mapping
    that [query_firestore_collection] returns is the field mapping of a
    document stored in the collection with "id" set to that document's
    identifier, and for a stored document [get_firestore_document] returns
    a mapping whose "id" is the document's identifier.  The identifier
    replaces a stored field called "id". *)
Theorem returned_documents_carry_store_id (w : world) (client : Client)
    (Hdb : db w = Some client) :
  (forall c n p w',
      query_firestore_collection c n w = (Return p, w') ->
      ~ raises (query_try client c n) w ->
      forall doc, doc ∈ p ->
        exists i fields,
          stored_fields (store w) c i = Some fields /\
          doc = <["id" := VStr i]> fields /\
          doc !! "id" = Some (VStr i)) /\
  (forall c d fields,
      stored_fields (store w) c d = Some fields ->
      ~ raises (get_try client c d) w ->
      exists p w',
        get_firestore_document c d w = (Return p, w') /\
        p !! "id" = Some (VStr d) /\
        (fields ≠ ∅ -> p = <["id" := VStr d]> fields)).
Proof.
  split.
  - intros c n p w' Hq Hrun doc Hin.
    destruct (not_raises_returns _ _ Hrun) as (p' & w1 & Htry).
    rewrite (query_runs _ _ _ _ _ _ Hdb Htry) in Hq. injection Hq as <- <-.
    apply query_try_returns in Htry as (_ & -> & _).
    apply gather_elem in Hin as (snap & fields & Hsnap & Hd & _ & ->).
    apply snapshot_in_collection in Hsnap as (_ & fields' & Hd' & Hst).
    rewrite Hd in Hd'. injection Hd' as <-.
    exists (snap_id snap), fields. by rewrite lookup_insert_eq.
  - intros c d fields Hst Hrun. do 2 eexists.
    split; [by apply (get_runs client)|].
    rewrite Hst. unfold get_result. split.
    + destruct (dict_truthy fields); by rewrite lookup_insert_eq.
    + intros Hne. apply dict_truthy_nonempty in Hne. by rewrite Hne.
Qed.

Lemma returned_documents_carry_store_id_witness :
  (exists p w',
      get_firestore_document "users" "u2" (serving shop no_faults) = (Return p, w') /\
      p !! "id" = Some (VStr "u2") /\
      p = <["id" := VStr "u2"]> {[ "name" := VStr "ann"; "id" := VInt 7 ]}) /\
  stored_fields shop "users" "u2" = Some {[ "name" := VStr "ann"; "id" := VInt 7 ]}.
Proof.
  split; [|vm_compute; done].
  destruct (returned_documents_carry_store_id (serving shop no_faults) _ eq_refl)
    as [_ Hget].
  destruct (Hget "users" "u2" {[ "name" := VStr "ann"; "id" := VInt 7 ]})
    as (p & w' & Hp & Hid & Hfields).
  - vm_compute. done.
  - intros (e & w' & Hraise). vm_compute in Hraise. discriminate.
  - exists p, w'. repeat split; [done..|].
    apply Hfields. intros Hempty.
    apply (f_equal (fun m : dict => m !! "name")) in Hempty. discriminate.
Defined.

(** C10. A document that exists with an empty field mapping: with the
    handle set and no exception from the store, [get_firestore_document]
    returns the mapping with "id" (the document's identifier), "data"
    ([None]) and "message", which has no "error" key and is not the empty
    field mapping with "id" added. *)
Theorem get_document_without_fields (w : world) (client : Client) (c d : string)
    (Hdb : db w = Some client)
    (Hstored : stored_fields (store w) c d = Some ∅)
    (Hrun : ~ raises (get_try client c d) w) :
  exists p w',
    get_firestore_document c d w = (Return p, w') /\
    p = {[ "id" := VStr d; "data" := VNone;
           "message" := VStr "Document exists but contains no data." ]} /\
    p !! "id" = Some (VStr d) /\
    p !! "data" = Some VNone /\
    is_Some (p !! "message") /\
    p !! "error" = None /\
    p ≠ <["id" := VStr d]> ∅.
Proof.
  do 2 eexists. split; [by apply (get_runs client)|].
  rewrite Hstored. unfold get_result. simpl.
  repeat split; done.
Qed.

Lemma get_document_without_fields_witness :
  exists p w',
    get_firestore_document "users" "u1" (serving shop no_faults) = (Return p, w') /\
    p !! "data" = Some VNone /\ p !! "error" = None.
Proof.
  destruct (get_document_without_fields (serving shop no_faults) _ "users" "u1" eq_refl)
    as (p & w' & Hp & _ & _ & Hdata & _ & Herr & _).
  - vm_compute. done.
  - intros (e & w' & Hraise). vm_compute in Hraise. discriminate.
  - eauto.
Defined.

Lemma not_found_names_both (c d : string) :
  contains c (not_found c d) = true /\ contains d (not_found c d) = true.
Proof. unfold not_found. split; auto 8 with strings. Qed.

Lemma get_failed_names_both (c d : string) (e : exn) :
  contains c (get_failed c d e) = true /\ contains d (get_failed c d e) = true.
Proof. unfold get_failed. split; auto 8 with strings. Qed.

(** C4. The handle is set and the document does not exist:
    [get_firestore_document] returns, it does not raise, and what it returns
    is a mapping with the one key "error" whose message contains the
    collection name and the document id; unless a store call raised, the
    message is the "not found" one. *)
Theorem get_missing_document (w : world) (client : Client) (c d : string)
    (Hdb : db w = Some client)
    (Hmissing : stored_fields (store w) c d = None) :
  (exists msg w',
      get_firestore_document c d w = (Return {[ "error" := VStr msg ]}, w') /\
      contains c msg = true /\ contains d msg = true) /\
  (~ raises (get_try client c d) w ->
   exists w',
     get_firestore_document c d w
     = (Return {[ "error" := VStr (not_found c d) ]}, w')).
Proof.
  split.
  - destruct (get_try_cases client c d w) as [(e & w' & Hraise)|Hrun].
    + exists (get_failed c d e), w'. split; [by apply (get_handles client)|].
      apply get_failed_names_both.
    + exists (not_found c d), (log_call (CallGet (doc_ref_of c d))
                                 (log_call (CallDocument c d) w)).
      split; [|apply not_found_names_both].
      with_handle Hdb. apply try_except_returns.
      by rewrite Hrun, Hmissing.
  - intros Hrun. eexists. rewrite (get_runs client) by done.
    by rewrite Hmissing.
Qed.

Lemma get_missing_document_witness :
  exists w',
    get_firestore_document "users" "u9" (serving shop no_faults)
    = (Return {[ "error" := VStr "Document 'u9' not found in 'users'." ]}, w').
Proof.
  destruct (get_missing_document (serving shop no_faults) _ "users" "u9" eq_refl)
    as [_ Hrun].
  - vm_compute. done.
  - apply Hrun. intros (e & w' & Hraise). vm_compute in Hraise. discriminate.
Defined.

(** ** Adding a document *)

Lemma stored_fields_created (s : firestore) (c i : string) (data : dict) :
  stored_fields (created s c i data) c i = Some data.
Proof.
  unfold stored_fields, created. simpl.
  rewrite lookup_insert_eq. simpl. by rewrite lookup_insert_eq.
Qed.

Lemma add_try_returns client c data w r w1 :
  add_try client c data w = (Return r, w1) ->
  let new_id := auto_id (store w) (writes (store w)) in
  stored_fields (store w) c new_id = None /\
  r = {[ "success" := VBool true; "id" := VStr new_id;
         "message" := VStr ("Document added to '" +:+ c +:+ "'") ]} /\
  w1 = set_store (created (store w) c new_id data) (log_call (CallAdd c data) w).
Proof.
  unfold add_try, bind, ret.
  destruct (add client c data w) as [[[timestamp doc_ref]|e] w'] eqn:E; [|discriminate].
  intros [= <- <-]. unfold add in E.
  apply invoke_returns in E as (_ & s' & Hsem & ->).
  destruct (stored_fields (store w) c _) eqn:Hfree; [discriminate|].
  injection Hsem as <- <- <-. done.
Qed.

Lemma add_handles client c data w e w' :
  db w = Some client ->
  add_try client c data w = (Raise e, w') ->
  add_document_to_firestore c data w
  = (Return {[ "success" := VBool false; "error" := VStr (add_failed c e) ]}, w').
Proof.
  intros Hdb Hraise. with_handle Hdb.
  by rewrite (try_except_handles _ _ _ _ _ Hraise).
Qed.

Lemma add_runs client c data w r w' :
  db w = Some client ->
  add_try client c data w = (Return r, w') ->
  add_document_to_firestore c data w = (Return r, w').
Proof. intros Hdb Hrun. with_handle Hdb. by apply try_except_returns. Qed.

(** C3, as the code has it.  The handle is set and [document_data] has at
    least one field: when [add_document_to_firestore] returns an "id" and
    the store raises nothing during the following [get_firestore_document]
    of that id, the result is the submitted mapping with "id" set to the
    assigned identifier. *)
Theorem add_then_get_returns_fields (w : world) (client : Client) (c : string)
    (data r : dict) (w1 : world) (new_id : string)
    (Hdb : db w = Some client)
    (Hfields : data ≠ ∅)
    (Hadd : add_document_to_firestore c data w = (Return r, w1))
    (Hid : r !! "id" = Some (VStr new_id))
    (Hrun : ~ raises (get_try client c new_id) w1) :
  exists w2,
    get_firestore_document c new_id w1
    = (Return (<["id" := VStr new_id]> data), w2).
Proof.
  destruct (outcome_cases (add_try client c data) w)
    as [(r' & w' & Htry)|(e & w' & Hraise)].
  - rewrite (add_runs _ _ _ _ _ _ Hdb Htry) in Hadd. injection Hadd as <- <-.
    apply add_try_returns in Htry as (_ & -> & ->).
    rewrite lookup_insert_ne, lookup_insert_eq in Hid by done.
    injection Hid as <-.
    eexists. rewrite (get_runs client); [|done|done].
    simpl. rewrite stored_fields_created. unfold get_result.
    apply dict_truthy_nonempty in Hfields. by rewrite Hfields.
  - rewrite (add_handles _ _ _ _ _ _ Hdb Hraise) in Hadd. injection Hadd as <- <-.
    rewrite lookup_insert_ne, lookup_singleton_ne in Hid by done. discriminate.
Qed.

Lemma add_then_get_returns_fields_witness :
  exists r w1 w2,
    add_document_to_firestore "notes" {[ "title" := VStr "todo" ]}
      (serving shop no_faults) = (Return r, w1) /\
    r !! "id" = Some (VStr "auto0") /\
    get_firestore_document "notes" "auto0" w1
    = (Return {[ "id" := VStr "auto0"; "title" := VStr "todo" ]}, w2).
Proof.
  destruct (add_document_to_firestore "notes" {[ "title" := VStr "todo" ]}
              (serving shop no_faults)) as [o w1] eqn:Hadd.
  assert (o = Return {[ "success" := VBool true; "id" := VStr "auto0";
                        "message" := VStr "Document added to 'notes'" ]}) as ->.
  { apply (f_equal fst) in Hadd. vm_compute in Hadd. by subst o. }
  assert (w1 = (add_document_to_firestore "notes" {[ "title" := VStr "todo" ]}
                  (serving shop no_faults)).2) as Hw1 by by rewrite Hadd.
  destruct (add_then_get_returns_fields (serving shop no_faults) _ "notes"
              {[ "title" := VStr "todo" ]}
              {[ "success" := VBool true; "id" := VStr "auto0";
                 "message" := VStr "Document added to 'notes'" ]}
              w1 "auto0" eq_refl) as [w2 Hget].
  - intros Hempty. apply (f_equal (fun m : dict => m !! "title")) in Hempty.
    discriminate.
  - exact Hadd.
  - reflexivity.
  - intros (e & w' & Hraise). subst w1. vm_compute in Hraise. discriminate.
  - do 3 eexists. split; [reflexivity|]. split; [reflexivity|exact Hget].
Defined.

(** C3 as stated fails for the empty field mapping: the added document
    exists but [get_firestore_document] answers with "data" and "message"
    instead of the (empty) fields with "id". *)
Lemma add_then_get_empty_fields :
  exists w1 w2,
    add_document_to_firestore "notes" ∅ (serving shop no_faults)
    = (Return {[ "success" := VBool true; "id" := VStr "auto0";
                 "message" := VStr "Document added to 'notes'" ]}, w1) /\
    get_firestore_document "notes" "auto0" w1
    = (Return {[ "id" := VStr "auto0"; "data" := VNone;
                 "message" := VStr "Document exists but contains no data." ]}, w2) /\
    ({[ "id" := VStr "auto0"; "data" := VNone;
        "message" := VStr "Document exists but contains no data." ]} : dict)
    ≠ <["id" := VStr "auto0"]> ∅.
Proof.
  do 2 eexists. split; [|split].
  - vm_compute. reflexivity.
  - vm_compute. reflexivity.
  - intros Heq. apply (f_equal (fun m : dict => m !! "data")) in Heq. discriminate.
Qed.

(** ** Listing collections and subcollections *)

Lemma query_try_cases client c n w :
  raises (query_try client c n) w \/
  query_try client c n w
  = (Return (gather (take (Z.to_nat n)
                          (snapshot_of <$> collection_documents (store w) c)) []),
     log_call (CallStream c n) w).
Proof.
  destruct (outcome_cases (query_try client c n) w) as [(p & w' & H)|H]; [|by left].
  right. rewrite H. by apply query_try_returns in H as (_ & -> & ->).
Qed.

Lemma list_collections_try_cases client w :
  raises (list_collections_try client) w \/
  list_collections_try client w
  = (Return (id_mappings (top_level_collections (store w))),
     log_call CallCollections w).
Proof.
  unfold raises, list_collections_try, bind, collections, invoke, ret. simpl.
  case_fault; [left; eauto|]. right.
  unfold id_mappings. by rewrite <- list_fmap_compose.
Qed.

Lemma subcollections_try_cases client c d w :
  raises (subcollections_try client c d) w \/
  (stored_fields (store w) c d = None /\
   subcollections_try client c d w
   = (Return [ {[ "error" := VStr (not_found c d) ]} ],
      log_call (CallGet (doc_ref_of c d)) (log_call (CallDocument c d) w))) \/
  (is_Some (stored_fields (store w) c d) /\
   subcollections_try client c d w
   = (Return (id_mappings (subcollection_ids (store w) c d)),
      log_call (CallDocCollections (doc_ref_of c d))
        (log_call (CallGet (doc_ref_of c d)) (log_call (CallDocument c d) w)))).
Proof.
  unfold raises, subcollections_try, bind, document, get, doc_collections, invoke, ret.
  simpl. case_fault; [left; eauto|]. simpl.
  case_fault; [left; eauto|]. simpl.
  destruct (stored_fields (store w) c d) as [fields|] eqn:Hst; simpl.
  - case_fault; [left; eauto|]. right. right. split; [eauto|].
    unfold id_mappings. by rewrite <- list_fmap_compose.
  - right. left. done.
Qed.

Lemma list_collections_runs client w p w' :
  db w = Some client ->
  list_collections_try client w = (Return p, w') ->
  list_firestore_collections w = (Return p, w').
Proof. intros Hdb Hrun. with_handle Hdb. by apply try_except_returns. Qed.

Lemma list_collections_handles client w e w' :
  db w = Some client ->
  list_collections_try client w = (Raise e, w') ->
  list_firestore_collections w
  = (Return [ {[ "error" := VStr (list_collections_failed e) ]} ], w').
Proof.
  intros Hdb Hraise. with_handle Hdb.
  by rewrite (try_except_handles _ _ _ _ _ Hraise).
Qed.

Lemma subcollections_runs client c d w p w' :
  db w = Some client ->
  subcollections_try client c d w = (Return p, w') ->
  list_document_subcollections c d w = (Return p, w').
Proof. intros Hdb Hrun. with_handle Hdb. by apply try_except_returns. Qed.

Lemma subcollections_handles client c d w e w' :
  db w = Some client ->
  subcollections_try client c d w = (Raise e, w') ->
  list_document_subcollections c d w
  = (Return [ {[ "error" := VStr (subcollections_failed d e) ]} ], w').
Proof.
  intros Hdb Hraise. with_handle Hdb.
  by rewrite (try_except_handles _ _ _ _ _ Hraise).
Qed.

(** C5. The handle is set and the store raises nothing.  For a parent
    document that does not exist, [list_document_subcollections] returns the
    one-element list with the "not found" error mapping after the calls
    [document] and [get] and no other: the subcollections are not
    enumerated.  For a parent that exists and has no subcollection it
    returns the empty list.  The two results differ. *)
Theorem missing_parent_differs_from_no_subcollections
    (w : world) (client : Client) (c missing c' present : string)
    (Hdb : db w = Some client)
    (Hmissing : stored_fields (store w) c missing = None)
    (Hpresent : is_Some (stored_fields (store w) c' present))
    (Hnone : subcollection_ids (store w) c' present = [])
    (Hrun : ~ raises (subcollections_try client c missing) w)
    (Hrun' : ~ raises (subcollections_try client c' present) w) :
  exists w1 w2,
    list_document_subcollections c missing w
    = (Return [ {[ "error" := VStr (not_found c missing) ]} ], w1) /\
    calls w1 = calls w ++ [CallDocument c missing; CallGet (doc_ref_of c missing)] /\
    list_document_subcollections c' present w = (Return [], w2) /\
    [ ({[ "error" := VStr (not_found c missing) ]} : dict) ] ≠ [].
Proof.
  destruct (subcollections_try_cases client c missing w)
    as [?|[[_ Hm]|[Hsome _]]]; [contradiction| |].
  2:{ rewrite Hmissing in Hsome. by destruct Hsome. }
  destruct (subcollections_try_cases client c' present w)
    as [?|[[Hnot _]|[_ Hp]]]; [contradiction| |].
  { rewrite Hnot in Hpresent. by destruct Hpresent. }
  rewrite Hnone in Hp. do 2 eexists.
  split; [by apply (subcollections_runs client)|].
  split; [simpl; by rewrite <- List.app_assoc|].
  split; [by apply (subcollections_runs client)|done].
Qed.

Lemma missing_parent_differs_from_no_subcollections_witness :
  exists w1 w2,
    list_document_subcollections "users" "ghost" (serving shop no_faults)
    = (Return [ {[ "error" := VStr "Document 'ghost' not found in 'users'." ]} ], w1) /\
    calls w1 = [CallDocument "users" "ghost"; CallGet (doc_ref_of "users" "ghost")] /\
    list_document_subcollections "users" "u1" (serving shop no_faults) = (Return [], w2).
Proof.
  destruct (missing_parent_differs_from_no_subcollections
              (serving shop no_faults) _ "users" "ghost" "users" "u1" eq_refl)
    as (w1 & w2 & H1 & Hcalls & H2 & _).
  - vm_compute. done.
  - vm_compute. eauto.
  - vm_compute. done.
  - intros (e & w' & Hraise). vm_compute in Hraise. discriminate.
  - intros (e & w' & Hraise). vm_compute in Hraise. discriminate.
  - exists w1, w2. split; [exact H1|]. split; [exact Hcalls|exact H2].
Defined.

(** ** Exceptions from the store *)

Lemma query_failed_names_collection (c : string) (e : exn) :
  contains c (query_failed c e) = true.
Proof. unfold query_failed. auto with strings. Qed.

Lemma add_failed_names_collection (c : string) (e : exn) :
  contains c (add_failed c e) = true.
Proof. unfold add_failed. auto with strings. Qed.

Lemma subcollections_failed_names_document (d : string) (e : exn) :
  contains d (subcollections_failed d e) = true.
Proof. unfold subcollections_failed. auto with strings. Qed.

(** C6, as the code has it.  With the handle set, each of the five tools
    returns a payload whatever the store calls under its [try] do; no
    exception leaves a tool.  When the block under [try] raises [e], the
    payload is the tool's error payload: its message contains the
    collection name for [query_firestore_collection] and
    [add_document_to_firestore], the collection name and the document id
    for [get_firestore_document], the document id for
    [list_document_subcollections], and for [list_firestore_collections],
    which has neither, it is "Failed to list collections: " followed by
    [str(e)]. *)
Theorem store_exception_becomes_error_payload (w : world) (client : Client)
    (Hdb : db w = Some client) :
  ((forall c n, exists p w', query_firestore_collection c n w = (Return p, w')) /\
   (forall c data, exists p w', add_document_to_firestore c data w = (Return p, w')) /\
   (exists p w', list_firestore_collections w = (Return p, w')) /\
   (forall c d, exists p w', get_firestore_document c d w = (Return p, w')) /\
   (forall c d, exists p w', list_document_subcollections c d w = (Return p, w'))) /\
  (forall c n e w',
      query_try client c n w = (Raise e, w') ->
      query_firestore_collection c n w
      = (Return [ {[ "error" := VStr (query_failed c e) ]} ], w') /\
      contains c (query_failed c e) = true) /\
  (forall c data e w',
      add_try client c data w = (Raise e, w') ->
      add_document_to_firestore c data w
      = (Return {[ "success" := VBool false; "error" := VStr (add_failed c e) ]}, w') /\
      contains c (add_failed c e) = true) /\
  (forall e w',
      list_collections_try client w = (Raise e, w') ->
      list_firestore_collections w
      = (Return [ {[ "error" := VStr ("Failed to list collections: " +:+ str e) ]} ], w')) /\
  (forall c d e w',
      get_try client c d w = (Raise e, w') ->
      get_firestore_document c d w
      = (Return {[ "error" := VStr (get_failed c d e) ]}, w') /\
      contains c (get_failed c d e) = true /\
      contains d (get_failed c d e) = true) /\
  (forall c d e w',
      subcollections_try client c d w = (Raise e, w') ->
      list_document_subcollections c d w
      = (Return [ {[ "error" := VStr (subcollections_failed d e) ]} ], w') /\
      contains d (subcollections_failed d e) = true).
Proof.
  split; [repeat split; intros|repeat split].
  - destruct (outcome_cases (query_try client c n) w)
      as [(p & w' & H)|(e & w' & H)]; do 2 eexists;
      [by apply (query_runs client)|by apply (query_handles client)].
  - destruct (outcome_cases (add_try client c data) w)
      as [(p & w' & H)|(e & w' & H)]; do 2 eexists;
      [by apply (add_runs client)|by apply (add_handles client)].
  - destruct (outcome_cases (list_collections_try client) w)
      as [(p & w' & H)|(e & w' & H)]; do 2 eexists;
      [by apply (list_collections_runs client)|by apply (list_collections_handles client)].
  - destruct (outcome_cases (get_try client c d) w)
      as [(p & w' & H)|(e & w' & H)]; do 2 eexists;
      [|by apply (get_handles client)].
    with_handle Hdb. by apply try_except_returns.
  - destruct (outcome_cases (subcollections_try client c d) w)
      as [(p & w' & H)|(e & w' & H)]; do 2 eexists;
      [by apply (subcollections_runs client)|by apply (subcollections_handles client)].
  - by apply (query_handles client).
  - apply query_failed_names_collection.
  - by apply (add_handles client).
  - apply add_failed_names_collection.
  - intros e w' H. by apply (list_collections_handles client).
  - by apply (get_handles client).
  - apply get_failed_names_both.
  - apply get_failed_names_both.
  - by apply (subcollections_handles client).
  - apply subcollections_failed_names_document.
Qed.

Lemma store_exception_becomes_error_payload_witness :
  exists w',
    get_try {| project := "demo" |} "users" "u2" (serving shop get_fails)
    = (Raise (Exception "503 unavailable"), w') /\
    get_firestore_document "users" "u2" (serving shop get_fails)
    = (Return {[ "error" :=
                   VStr "Failed to get document 'u2' from 'users': 503 unavailable" ]},
       w').
Proof.
  destruct (store_exception_becomes_error_payload (serving shop get_fails) _ eq_refl)
    as (_ & _ & _ & _ & Hget & _).
  eexists. split; [reflexivity|].
  destruct (Hget "users" "u2" (Exception "503 unavailable") _ eq_refl) as [H _].
  exact H.
Defined.

(** C6 as stated fails for [list_document_subcollections]: [get()] raises
    for the document "u2" of the collection "users", and the message of the
    error payload has the document id but not the collection name. *)
Lemma subcollections_failure_omits_collection :
  exists w',
    subcollections_try {| project := "demo" |} "users" "u2" (serving shop get_fails)
    = (Raise (Exception "503 unavailable"), w') /\
    list_document_subcollections "users" "u2" (serving shop get_fails)
    = (Return [ {[ "error" :=
                     VStr "Failed to list subcollections for 'u2': 503 unavailable" ]} ],
       w') /\
    contains "users" "Failed to list subcollections for 'u2': 503 unavailable" = false.
Proof.
  eexists. split; [reflexivity|]. split; reflexivity.
Qed.

(** ** Listings without items *)

Lemma gather_not_error (docs_ref : list DocumentSnapshot) :
  ~ is_error_payload (gather docs_ref []).
Proof.
  intros [msg Heq].
  assert ({[ "error" := VStr msg ]} ∈ gather docs_ref []) as Hin
      by (rewrite Heq; left).
  apply gather_elem in Hin as (doc & fields & _ & _ & _ & Hd).
  apply (f_equal (fun m : dict => m !! "id")) in Hd.
  rewrite lookup_insert_eq in Hd. discriminate.
Qed.

Lemma id_mappings_not_error (names : list string) :
  ~ is_error_payload (id_mappings names).
Proof.
  intros [msg Heq].
  assert ({[ "error" := VStr msg ]} ∈ id_mappings names) as Hin
      by (rewrite Heq; left).
  apply list_elem_of_fmap in Hin as (name & Hd & _).
  apply (f_equal (fun m : dict => m !! "id")) in Hd.
  rewrite lookup_singleton_eq in Hd. discriminate.
Qed.

(** C7. With the handle set: a listing tool whose listing has no item (the
    collection has no document, the store has no collection, the existing
    parent has no subcollection) returns the empty list unless a store call
    raises; and whatever the store holds, the failure payload comes back
    only when a store call under [try] raised. *)
Theorem empty_listing_is_not_failure (w : world) (client : Client)
    (Hdb : db w = Some client) :
  (forall c n,
      collection_documents (store w) c = [] ->
      ~ raises (query_try client c n) w ->
      exists w', query_firestore_collection c n w = (Return [], w')) /\
  (top_level_collections (store w) = [] ->
   ~ raises (list_collections_try client) w ->
   exists w', list_firestore_collections w = (Return [], w')) /\
  (forall c d,
      is_Some (stored_fields (store w) c d) ->
      subcollection_ids (store w) c d = [] ->
      ~ raises (subcollections_try client c d) w ->
      exists w', list_document_subcollections c d w = (Return [], w')) /\
  (forall c n p w',
      query_firestore_collection c n w = (Return p, w') ->
      is_error_payload p ->
      raises (query_try client c n) w) /\
  (forall p w',
      list_firestore_collections w = (Return p, w') ->
      is_error_payload p ->
      raises (list_collections_try client) w) /\
  (forall c d p w',
      is_Some (stored_fields (store w) c d) ->
      list_document_subcollections c d w = (Return p, w') ->
      is_error_payload p ->
      raises (subcollections_try client c d) w).
Proof.
  repeat split.
  - intros c n Hempty Hrun.
    destruct (query_try_cases client c n w) as [?|Htry]; [contradiction|].
    rewrite Hempty in Htry. simpl in Htry. rewrite take_nil in Htry.
    eexists. by apply (query_runs client).
  - intros Hempty Hrun.
    destruct (list_collections_try_cases client w) as [?|Htry]; [contradiction|].
    rewrite Hempty in Htry. eexists. by apply (list_collections_runs client).
  - intros c d Hsome Hempty Hrun.
    destruct (subcollections_try_cases client c d w)
      as [?|[[Hnone _]|[_ Htry]]]; [contradiction| |].
    + rewrite Hnone in Hsome. by destruct Hsome.
    + rewrite Hempty in Htry. eexists. by apply (subcollections_runs client).
  - intros c n p w' Hq Herr.
    destruct (query_try_cases client c n w) as [?|Htry]; [done|].
    rewrite (query_runs _ _ _ _ _ _ Hdb Htry) in Hq. injection Hq as <- <-.
    by apply gather_not_error in Herr.
  - intros p w' Hl Herr.
    destruct (list_collections_try_cases client w) as [?|Htry]; [done|].
    rewrite (list_collections_runs _ _ _ _ Hdb Htry) in Hl. injection Hl as <- <-.
    by apply id_mappings_not_error in Herr.
  - intros c d p w' Hsome Hl Herr.
    destruct (subcollections_try_cases client c d w)
      as [?|[[Hnone _]|[_ Htry]]]; [done| |].
    + rewrite Hnone in Hsome. by destruct Hsome.
    + rewrite (subcollections_runs _ _ _ _ _ _ Hdb Htry) in Hl.
      injection Hl as <- <-. by apply id_mappings_not_error in Herr.
Qed.

Lemma empty_listing_is_not_failure_witness :
  (exists w', query_firestore_collection "users" 50 (serving blank no_faults)
              = (Return [], w')) /\
  (exists w', list_firestore_collections (serving blank no_faults) = (Return [], w')) /\
  (exists w', list_document_subcollections "users" "u2" (serving shop no_faults)
              = (Return [], w')).
Proof.
  destruct (empty_listing_is_not_failure (serving blank no_faults) _ eq_refl)
    as (Hq & Hl & _).
  destruct (empty_listing_is_not_failure (serving shop no_faults) _ eq_refl)
    as (_ & _ & Hs & _).
  split; [|split].
  - apply Hq; [vm_compute; done|].
    intros (e & w' & Hraise). vm_compute in Hraise. discriminate.
  - apply Hl; [vm_compute; done|].
    intros (e & w' & Hraise). vm_compute in Hraise. discriminate.
  - apply Hs; [vm_compute; eauto|vm_compute; done|].
    intros (e & w' & Hraise). vm_compute in Hraise. discriminate.
Defined.

(** ** Initialization *)

Lemma keeps_db_ret {A} (a : A) : keeps_db (ret a).
Proof. by intros w. Qed.

Lemma keeps_db_bind {A B} (m : M A) (f : A -> M B) :
  keeps_db m -> (forall a, keeps_db (f a)) -> keeps_db (bind m f).
Proof.
  intros Hm Hf w. unfold bind. specialize (Hm w).
  destruct (m w) as [[a|e] w1]; simpl in *; [|done].
  by rewrite Hf.
Qed.

Lemma keeps_db_try_except {A} (body : M A) (handler : exn -> M A) :
  keeps_db body -> (forall e, keeps_db (handler e)) -> keeps_db (try_except body handler).
Proof.
  intros Hm Hh w. unfold try_except. specialize (Hm w).
  destruct (body w) as [[a|e] w1]; simpl in *; [done|].
  by rewrite Hh.
Qed.

Lemma keeps_db_invoke {A} (c : call) (sem : firestore -> outcome (A * firestore)) :
  keeps_db (invoke c sem).
Proof.
  intros w. unfold invoke. destruct (faults w (calls w) c); [done|].
  by destruct (sem (store w)) as [[a s']|e].
Qed.

Lemma keeps_db_global_db : keeps_db global_db.
Proof. by intros w. Qed.

Create HintDb keeps.
#[local] Hint Resolve keeps_db_ret keeps_db_invoke keeps_db_global_db : keeps.

Ltac keeps_db_tool :=
  apply keeps_db_bind; [apply keeps_db_global_db|];
  intros [client|]; [|apply keeps_db_ret];
  apply keeps_db_try_except; [|intros; apply keeps_db_ret].

Lemma query_keeps_db c n : keeps_db (query_firestore_collection c n).
Proof.
  keeps_db_tool. apply keeps_db_bind; [apply keeps_db_invoke|auto with keeps].
Qed.

Lemma add_keeps_db c data : keeps_db (add_document_to_firestore c data).
Proof.
  keeps_db_tool. apply keeps_db_bind; [apply keeps_db_invoke|].
  intros [timestamp doc_ref]. apply keeps_db_ret.
Qed.

Lemma list_collections_keeps_db : keeps_db list_firestore_collections.
Proof.
  keeps_db_tool. apply keeps_db_bind; [apply keeps_db_invoke|auto with keeps].
Qed.

Lemma get_keeps_db c d : keeps_db (get_firestore_document c d).
Proof.
  keeps_db_tool. apply keeps_db_bind; [apply keeps_db_invoke|]. intros doc_ref.
  apply keeps_db_bind; [apply keeps_db_invoke|]. intros doc.
  destruct (snap_exists doc); [|apply keeps_db_ret].
  simpl. destruct (if_truthy (to_dict doc)); apply keeps_db_ret.
Qed.

Lemma subcollections_keeps_db c d : keeps_db (list_document_subcollections c d).
Proof.
  keeps_db_tool. apply keeps_db_bind; [apply keeps_db_invoke|]. intros doc_ref.
  apply keeps_db_bind; [apply keeps_db_invoke|]. intros doc.
  destruct (negb (snap_exists doc)); [apply keeps_db_ret|].
  apply keeps_db_bind; [apply keeps_db_invoke|auto with keeps].
Qed.

(** C9. Started with [db] unset, [firebase_lifespan] reaches a [yield]
    whatever the environment and the Admin SDK do: it returns no exception
    to its caller.  It yields with the handle unset when the key file is
    absent and when [credentials.Certificate], [initialize_app] or
    [firestore.client()] raises; it yields with the handle set, to the
    client [firestore.client()] returned, in the one remaining case.  No
    tool assigns [db] afterwards. *)
Theorem initialization_always_yields (env : environment) (w : world)
    (Hunset : db w = None) :
  let path := effective_service_account_path env in
  (exists y w',
      firebase_lifespan env w = (Return y, w') /\
      (path_exists env path = false -> y = CredentialFileMissing /\ db w' = None) /\
      (path_exists env path = true ->
       (exists e, Certificate env path = Raise e) ->
       y = CredentialsInvalid /\ db w' = None) /\
      (path_exists env path = true ->
       (exists cred e, Certificate env path = Return cred /\
                       firebase_apps w = false /\
                       initialize_app env cred = Raise e) ->
       y = CredentialsInvalid /\ db w' = None) /\
      (path_exists env path = true ->
       (exists e, firestore_client env = Raise e) ->
       y = CredentialsInvalid /\ db w' = None) /\
      (y = Ready ->
       exists client, firestore_client env = Return client /\ db w' = Some client) /\
      (y <> Ready -> db w' = None)) /\
  (forall c n, keeps_db (query_firestore_collection c n)) /\
  (forall c data, keeps_db (add_document_to_firestore c data)) /\
  keeps_db list_firestore_collections /\
  (forall c d, keeps_db (get_firestore_document c d)) /\
  (forall c d, keeps_db (list_document_subcollections c d)).
Proof.
  intros path. split.
  2:{ auto using query_keeps_db, add_keeps_db, list_collections_keeps_db,
        get_keeps_db, subcollections_keeps_db. }
  unfold firebase_lifespan, bind, try_except, lifespan_try, bind, sdk, global_apps, ret.
  fold path. simpl.
  destruct (path_exists env path) eqn:Hexists.
  2:{ do 2 eexists. split; [reflexivity|]. simpl.
      repeat split; intros; try done. }
  destruct (Certificate env path) as [cred|e] eqn:Hcert.
  2:{ do 2 eexists. split; [reflexivity|]. simpl.
      repeat split; intros; try done. }
  simpl. destruct (firebase_apps w) eqn:Happs; simpl.
  - destruct (firestore_client env) as [client|e] eqn:Hclient.
    + do 2 eexists. split; [reflexivity|]. simpl.
      repeat split; intros; try done;
        repeat match goal with H : exists _, _ |- _ => destruct H end;
        try intuition congruence.
      eauto.
    + do 2 eexists. split; [reflexivity|]. simpl.
      repeat split; intros; try done.
  - destruct (initialize_app env cred) as [[]|e] eqn:Hinit; simpl.
    + destruct (firestore_client env) as [client|e] eqn:Hclient.
      * do 2 eexists. split; [reflexivity|]. simpl.
        repeat split; intros; try done;
          repeat match goal with H : exists _, _ |- _ => destruct H end;
          try intuition congruence.
        eauto.
      * do 2 eexists. split; [reflexivity|]. simpl.
        repeat split; intros; try done.
    + do 2 eexists. split; [reflexivity|]. simpl.
      repeat split; intros; try done.
Qed.

Lemma initialization_always_yields_witness :
  (exists w', firebase_lifespan no_key_file (loaded blank no_faults)
              = (Return CredentialFileMissing, w') /\ db w' = None) /\
  (exists w', firebase_lifespan bad_key_file (loaded blank no_faults)
              = (Return CredentialsInvalid, w') /\ db w' = None) /\
  (exists w', firebase_lifespan good_key_file (loaded blank no_faults)
              = (Return Ready, w') /\ db w' = Some {| project := "demo" |}).
Proof.
  split; [|split].
  - destruct (initialization_always_yields no_key_file (loaded blank no_faults) eq_refl)
      as [(y & w' & Hrun & Hmissing & _) _].
    destruct (Hmissing eq_refl) as [-> Hdb]. eauto.
  - destruct (initialization_always_yields bad_key_file (loaded blank no_faults) eq_refl)
      as [(y & w' & Hrun & _ & Hcert & _) _].
    destruct (Hcert eq_refl) as [-> Hdb]; [simpl; eauto|]. eauto.
  - destruct (initialization_always_yields good_key_file (loaded blank no_faults) eq_refl)
      as [(y & w' & Hrun & _ & _ & _ & _ & Hready & _) _].
    assert (y = Ready) as ->.
    { apply (f_equal fst) in Hrun. vm_compute in Hrun. by injection Hrun as <-. }
    destruct (Hready eq_refl) as (client & Hclient & Hdb).
    simpl in Hclient. injection Hclient as <-. eauto.
Defined.

(** ** Further properties of the tools *)

(** X1.  The loop of [query_firestore_collection] is a filter-map: it appends,
    in the order of the stream, the merged mapping of every snapshot whose
    [to_dict()] is truthy, and nothing for the others. *)
Theorem gather_filter_map (docs_ref : list DocumentSnapshot) (acc : list dict) :
  gather docs_ref acc = acc ++ omap merged docs_ref.
Proof.
  revert acc. induction docs_ref as [|doc rest IH]; intros acc; simpl.
  - by rewrite List.app_nil_r.
  - unfold merged at 1. destruct (if_truthy (to_dict doc)) as [d|]; simpl.
    + rewrite IH. by rewrite <- List.app_assoc.
    + apply IH.
Qed.

Lemma gather_length_le (docs_ref : list DocumentSnapshot) :
  (length (gather docs_ref []) <= length docs_ref)%nat.
Proof.
  induction docs_ref as [|doc rest IH]; simpl; [done|].
  destruct (if_truthy (to_dict doc)); [|lia].
  rewrite gather_acc. simpl. lia.
Qed.

(** X2.  With the handle set and no exception from the store, a query returns at
    most [limit] mappings and at most one per document of the collection. *)
Theorem query_returns_at_most_limit (w : world) (client : Client) (c : string)
    (n : Z) (p : list dict) (w' : world)
    (Hdb : db w = Some client)
    (Hrun : ~ raises (query_try client c n) w)
    (Hq : query_firestore_collection c n w = (Return p, w')) :
  (Z.of_nat (length p) <= n) /\
  (length p <= length (collection_documents (store w) c))%nat.
Proof.
  destruct (not_raises_returns _ _ Hrun) as (p' & w1 & Htry).
  rewrite (query_runs _ _ _ _ _ _ Hdb Htry) in Hq. injection Hq as <- <-.
  apply query_try_returns in Htry as (Hn & -> & _).
  pose proof (gather_length_le
                (take (Z.to_nat n) (snapshot_of <$> collection_documents (store w) c)))
    as Hle.
  rewrite length_take, length_fmap in Hle. lia.
Qed.

Lemma query_returns_at_most_limit_witness :
  exists p w',
    query_firestore_collection "users" 1 (serving shop no_faults) = (Return p, w') /\
    Z.of_nat (length p) <= 1.
Proof.
  destruct (query_firestore_collection "users" 1 (serving shop no_faults))
    as [o w'] eqn:Hq.
  destruct o as [p|e]; [|apply (f_equal fst) in Hq; vm_compute in Hq; discriminate].
  exists p, w'. split; [reflexivity|].
  refine (proj1 (query_returns_at_most_limit (serving shop no_faults) _ "users" 1 p w'
                   eq_refl _ Hq)).
  intros (e & w1 & Hraise). vm_compute in Hraise. discriminate.
Defined.

Lemma invoke_calls {A} (c : call) (sem : firestore -> outcome (A * firestore)) w :
  calls (invoke c sem w).2 = calls w ++ [c].
Proof.
  unfold invoke. destruct (faults w (calls w) c); [done|].
  by destruct (sem (store w)) as [[a s']|e].
Qed.

Lemma try_except_ret_world {A} (body : M A) (f : exn -> A) w :
  (try_except body (fun e => ret (f e)) w).2 = (body w).2.
Proof. unfold try_except, ret. by destruct (body w) as [[a|e] w']. Qed.

Lemma bind_ret_world {A B} (m : M A) (f : A -> B) w :
  (bind m (fun a => ret (f a)) w).2 = (m w).2.
Proof. unfold bind, ret. by destruct (m w) as [[a|e] w']. Qed.

(** X3.  With the handle set, a tool makes the client calls of its own
    arguments and no other, whatever the store answers:
    [query_firestore_collection] the one [stream] of its collection with
    its limit, [add_document_to_firestore] the one [add] of its mapping,
    [list_firestore_collections] the one [collections];
    [get_firestore_document] makes [document] and then, unless that raised,
    [get]; [list_document_subcollections] goes on with [collections] on the
    same reference only after [get]. *)
Theorem tool_call_footprint (w : world) (client : Client) (Hdb : db w = Some client) :
  (forall c n, calls (query_firestore_collection c n w).2 = calls w ++ [CallStream c n]) /\
  (forall c data,
      calls (add_document_to_firestore c data w).2 = calls w ++ [CallAdd c data]) /\
  calls (list_firestore_collections w).2 = calls w ++ [CallCollections] /\
  (forall c d,
      calls (get_firestore_document c d w).2 = calls w ++ [CallDocument c d] \/
      calls (get_firestore_document c d w).2
      = calls w ++ [CallDocument c d; CallGet (doc_ref_of c d)]) /\
  (forall c d,
      calls (list_document_subcollections c d w).2 = calls w ++ [CallDocument c d] \/
      calls (list_document_subcollections c d w).2
      = calls w ++ [CallDocument c d; CallGet (doc_ref_of c d)] \/
      calls (list_document_subcollections c d w).2
      = calls w ++ [CallDocument c d; CallGet (doc_ref_of c d);
                    CallDocCollections (doc_ref_of c d)]).
Proof.
  repeat split; intros.
  - with_handle Hdb. rewrite try_except_ret_world. unfold query_try.
    rewrite bind_ret_world. apply invoke_calls.
  - with_handle Hdb. rewrite try_except_ret_world.
    unfold add_try, bind, ret.
    pose proof (invoke_calls (CallAdd c data)
                  (fun s =>
                     match stored_fields s c (auto_id s (writes s)) with
                     | Some _ => Raise (Exception "409 Document already exists")
                     | None => Return ((writes s, doc_ref_of c (auto_id s (writes s))),
                                       created s c (auto_id s (writes s)) data)
                     end) w) as Hcalls.
    unfold add. destruct (invoke _ _ w) as [[[timestamp doc_ref]|e] w1]; exact Hcalls.
  - with_handle Hdb. rewrite try_except_ret_world. unfold list_collections_try.
    rewrite bind_ret_world. apply invoke_calls.
  - with_handle Hdb. rewrite try_except_ret_world.
    unfold get_try, bind, document, get, invoke, ret. simpl.
    case_fault; [by left|]. simpl. right.
    case_fault; simpl; [by rewrite <- List.app_assoc|].
    destruct (bool_decide _); [destruct (if_truthy _)|]; simpl;
      by rewrite <- List.app_assoc.
  - with_handle Hdb. rewrite try_except_ret_world.
    unfold subcollections_try, bind, document, get, doc_collections, invoke, ret. simpl.
    case_fault; [by left|]. simpl. right.
    case_fault; simpl; [left; by rewrite <- List.app_assoc|].
    destruct (bool_decide _); simpl; [|left; by rewrite <- List.app_assoc].
    right. case_fault; simpl; by rewrite <- !List.app_assoc.
Qed.

Lemma tool_call_footprint_witness :
  calls (list_document_subcollections "users" "u2" (serving shop no_faults)).2
  = [CallDocument "users" "u2"; CallGet (doc_ref_of "users" "u2");
     CallDocCollections (doc_ref_of "users" "u2")] /\
  (calls (list_document_subcollections "users" "u2" (serving shop get_fails)).2
   = [CallDocument "users" "u2"] \/
   calls (list_document_subcollections "users" "u2" (serving shop get_fails)).2
   = [CallDocument "users" "u2"; CallGet (doc_ref_of "users" "u2")] \/
   calls (list_document_subcollections "users" "u2" (serving shop get_fails)).2
   = [CallDocument "users" "u2"; CallGet (doc_ref_of "users" "u2");
      CallDocCollections (doc_ref_of "users" "u2")]).
Proof.
  split; [reflexivity|].
  destruct (tool_call_footprint (serving shop get_fails) _ eq_refl)
    as (_ & _ & _ & _ & H).
  exact (H "users" "u2").
Defined.

Lemma keeps_store_ret {A} (a : A) : keeps_store (ret a).
Proof. by intros w. Qed.

Lemma keeps_store_bind {A B} (m : M A) (f : A -> M B) :
  keeps_store m -> (forall a, keeps_store (f a)) -> keeps_store (bind m f).
Proof.
  intros Hm Hf w. unfold bind. specialize (Hm w).
  destruct (m w) as [[a|e] w1]; simpl in *; [|done].
  by rewrite Hf.
Qed.

Lemma keeps_store_try_except {A} (body : M A) (handler : exn -> M A) :
  keeps_store body -> (forall e, keeps_store (handler e)) ->
  keeps_store (try_except body handler).
Proof.
  intros Hm Hh w. unfold try_except. specialize (Hm w).
  destruct (body w) as [[a|e] w1]; simpl in *; [done|].
  by rewrite Hh.
Qed.

(** A client call that reads: the store it leaves is the store it found. *)
Lemma keeps_store_invoke_read {A} (c : call) (read : firestore -> outcome A) :
  keeps_store (invoke c (fun s =>
                 match read s with
                 | Return a => Return (a, s)
                 | Raise e => Raise e
                 end)).
Proof.
  intros w. unfold invoke. destruct (faults w (calls w) c); [done|].
  by destruct (read (store w)).
Qed.

Lemma keeps_store_stream client c n : keeps_store (stream client c n).
Proof.
  intros w. unfold stream, invoke. destruct (faults w (calls w) _); [done|].
  by destruct (n <? 0).
Qed.

Lemma keeps_store_simple {A} (c : call) (read : firestore -> A) :
  keeps_store (invoke c (fun s => Return (read s, s))).
Proof.
  intros w. unfold invoke. by destruct (faults w (calls w) c).
Qed.

Ltac keeps_store_tool :=
  apply keeps_store_bind; [by intros ?|];
  intros [client|]; [|apply keeps_store_ret];
  apply keeps_store_try_except; [|intros; apply keeps_store_ret].

(** X4.  The four reading tools never write: whatever the handle, the store
    and the fault plan are, the store after [query_firestore_collection],
    [list_firestore_collections], [get_firestore_document] or
    [list_document_subcollections] is the store before. *)
Theorem reading_tools_leave_store :
  (forall c n, keeps_store (query_firestore_collection c n)) /\
  keeps_store list_firestore_collections /\
  (forall c d, keeps_store (get_firestore_document c d)) /\
  (forall c d, keeps_store (list_document_subcollections c d)).
Proof.
  repeat split; intros.
  - keeps_store_tool. apply keeps_store_bind; [apply keeps_store_stream|].
    intros; apply keeps_store_ret.
  - keeps_store_tool. apply keeps_store_bind.
    + apply (keeps_store_simple CallCollections
               (fun s => (fun name => {| coll_id := name |}) <$> top_level_collections s)).
    + intros; apply keeps_store_ret.
  - keeps_store_tool.
    apply keeps_store_bind; [apply (keeps_store_simple _ (fun _ => doc_ref_of c d))|].
    intros doc_ref. apply keeps_store_bind.
    + apply (keeps_store_simple (CallGet doc_ref)
               (fun s =>
                  {| snap_id := ref_id doc_ref;
                     snap_exists :=
                       bool_decide (is_Some (stored_fields s (ref_collection doc_ref)
                                               (ref_id doc_ref)));
                     to_dict := stored_fields s (ref_collection doc_ref)
                                  (ref_id doc_ref) |})).
    + intros doc. destruct (snap_exists doc); [|apply keeps_store_ret].
      simpl. destruct (if_truthy (to_dict doc)); apply keeps_store_ret.
  - keeps_store_tool.
    apply keeps_store_bind; [apply (keeps_store_simple _ (fun _ => doc_ref_of c d))|].
    intros doc_ref. apply keeps_store_bind.
    + apply (keeps_store_simple (CallGet doc_ref)
               (fun s =>
                  {| snap_id := ref_id doc_ref;
                     snap_exists :=
                       bool_decide (is_Some (stored_fields s (ref_collection doc_ref)
                                               (ref_id doc_ref)));
                     to_dict := stored_fields s (ref_collection doc_ref)
                                  (ref_id doc_ref) |})).
    + intros doc. destruct (negb (snap_exists doc)); [apply keeps_store_ret|].
      apply keeps_store_bind; [|intros; apply keeps_store_ret].
      apply (keeps_store_simple (CallDocCollections doc_ref)
               (fun s => (fun name => {| coll_id := name |}) <$>
                           subcollection_ids s (ref_collection doc_ref) (ref_id doc_ref))).
Qed.





Lemma get_result_id (c d : string) (stored : option dict) :
  get_result c d stored !! "id" = (fun _ => VStr d) <$> stored.
Proof.
  unfold get_result. destruct stored as [fields|]; simpl; [|done].
  destruct (dict_truthy fields); by rewrite lookup_insert_eq.
Qed.

(** X7.  With the handle set, the mapping [get_firestore_document] returns has
    an "id" key exactly when the document exists and no store call raised:
    the key tells a document from the three kinds of error. *)
Theorem get_id_key_iff_found (w : world) (client : Client) (c d : string)
    (p : dict) (w' : world)
    (Hdb : db w = Some client)
    (Hget : get_firestore_document c d w = (Return p, w')) :
  is_Some (p !! "id") <->
  is_Some (stored_fields (store w) c d) /\ ~ raises (get_try client c d) w.
Proof.
  destruct (get_try_cases client c d w) as [(e & w1 & Hraise)|Hrun].
  - rewrite (get_handles _ _ _ _ _ _ Hdb Hraise) in Hget. injection Hget as <- <-.
    split.
    + rewrite lookup_singleton_ne by done. by intros [? ?].
    + intros [_ Hno]. destruct Hno. by exists e, w1.
  - assert (~ raises (get_try client c d) w) as Hno.
    { intros (e & w1 & Hraise). rewrite Hrun in Hraise. discriminate. }
    rewrite (get_runs _ _ _ _ Hdb Hno) in Hget. injection Hget as <- <-.
    rewrite get_result_id. rewrite fmap_is_Some. tauto.
Qed.

Lemma get_id_key_iff_found_witness :
  exists p w',
    get_firestore_document "users" "u9" (serving shop no_faults) = (Return p, w') /\
    p !! "id" = None.
Proof.
  destruct (get_firestore_document "users" "u9" (serving shop no_faults))
    as [o w'] eqn:Hget.
  destruct o as [p|e]; [|apply (f_equal fst) in Hget; vm_compute in Hget; discriminate].
  exists p, w'. split; [reflexivity|].
  pose proof (get_id_key_iff_found (serving shop no_faults) _ "users" "u9" p w'
                eq_refl Hget) as Hiff.
  destruct (p !! "id") as [v|] eqn:Hid; [|done].
  destruct (proj1 Hiff (ltac:(by eexists))) as [[fields Hst] _].
  vm_compute in Hst. discriminate.
Defined.

(** X8.  A stored field called "error" comes back under that key: with the
    handle set and no exception from the store, the mapping returned for an
    existing document has the stored "error" value beside its "id", so the
    presence of an "error" key alone does not mean failure. *)
Theorem get_returns_stored_error_field (w : world) (client : Client) (c d : string)
    (fields : dict) (v : value)
    (Hdb : db w = Some client)
    (Hstored : stored_fields (store w) c d = Some fields)
    (Herror : fields !! "error" = Some v)
    (Hrun : ~ raises (get_try client c d) w) :
  exists p w',
    get_firestore_document c d w = (Return p, w') /\
    p !! "error" = Some v /\ p !! "id" = Some (VStr d).
Proof.
  do 2 eexists. split; [by apply (get_runs client)|].
  rewrite Hstored. unfold get_result.
  assert (fields ≠ ∅) as Hne.
  { intros ->. by rewrite lookup_empty in Herror. }
  apply dict_truthy_nonempty in Hne. rewrite Hne.
  rewrite lookup_insert_ne by done. by rewrite lookup_insert_eq.
Qed.

Lemma get_returns_stored_error_field_witness :
  exists p w',
    get_firestore_document "incidents" "i1" (serving incident_log no_faults)
    = (Return p, w') /\
    p !! "error" = Some (VStr "disk full") /\ p !! "id" = Some (VStr "i1").
Proof.
  apply (get_returns_stored_error_field (serving incident_log no_faults) _
           "incidents" "i1" {[ "error" := VStr "disk full" ]} (VStr "disk full") eq_refl).
  - vm_compute. done.
  - reflexivity.
  - intros (e & w' & Hraise). vm_compute in Hraise. discriminate.
Defined.

Lemma get_result_not_found (c d : string) (stored : option dict) :
  get_result c d stored = {[ "error" := VStr (not_found c d) ]} <-> stored = None.
Proof.
  split; [|by intros ->].
  destruct stored as [fields|]; [|done]. intros Heq.
  apply (f_equal (fun m : dict => m !! "id")) in Heq.
  rewrite get_result_id, lookup_singleton_ne in Heq by done. discriminate.
Qed.

(** X9.  [list_document_subcollections] and [get_firestore_document] agree on
    what a missing document is: with the handle set and no exception from
    the store, each returns its "not found" payload exactly when the
    document is not stored, and the two payloads carry the same message. *)
Theorem subcollections_and_get_agree_on_missing (w : world) (client : Client)
    (c d : string)
    (Hdb : db w = Some client)
    (Hget : ~ raises (get_try client c d) w)
    (Hsub : ~ raises (subcollections_try client c d) w) :
  ((get_firestore_document c d w).1 = Return {[ "error" := VStr (not_found c d) ]}
   <-> stored_fields (store w) c d = None) /\
  ((list_document_subcollections c d w).1
   = Return [ {[ "error" := VStr (not_found c d) ]} ]
   <-> stored_fields (store w) c d = None).
Proof.
  split.
  - rewrite (get_runs _ _ _ _ Hdb Hget). simpl. split.
    + intros [= Heq]. by apply get_result_not_found in Heq.
    + intros Hnone. f_equal. by apply get_result_not_found.
  - destruct (subcollections_try_cases client c d w)
      as [?|[[Hnone Htry]|[Hsome Htry]]]; [contradiction| |];
      rewrite (subcollections_runs _ _ _ _ _ _ Hdb Htry); simpl.
    + done.
    + split.
      * intros [= Heq]. exfalso.
        apply (id_mappings_not_error (subcollection_ids (store w) c d)).
        rewrite Heq. by eexists.
      * intros Hnone. rewrite Hnone in Hsome. by destruct Hsome.
Qed.

Lemma subcollections_and_get_agree_on_missing_witness :
  (get_firestore_document "users" "ghost" (serving shop no_faults)).1
  = Return {[ "error" := VStr (not_found "users" "ghost") ]} /\
  (list_document_subcollections "users" "ghost" (serving shop no_faults)).1
  = Return [ {[ "error" := VStr (not_found "users" "ghost") ]} ].
Proof.
  destruct (subcollections_and_get_agree_on_missing (serving shop no_faults) _
              "users" "ghost" eq_refl) as [Hg Hs].
  - intros (e & w' & Hraise). vm_compute in Hraise. discriminate.
  - intros (e & w' & Hraise). vm_compute in Hraise. discriminate.
  - split; [apply Hg|apply Hs]; vm_compute; done.
Defined.

Lemma starts_differently (prefix a b : string) :
  starts_with prefix a = true -> starts_with prefix b = false -> a <> b.
Proof. intros Ha Hb ->. congruence. Qed.

(** X10.  The messages of the three kinds of error never coincide, whatever the
    names, ids and exception texts are: a "not initialized" message starts
    with "Firestore", a "not found" message with "Document", and the message
    of a caught exception with "Failed to". *)
Theorem error_kinds_have_distinct_messages (c d c' d' : string) (e : exn) :
  Forall (fun failed =>
            starts_with "Failed to " failed = true /\
            failed <> not_found c' d' /\
            failed <> not_initialized_long /\
            failed <> not_initialized_short)
         [query_failed c e; add_failed c e; list_collections_failed e;
          get_failed c d e; subcollections_failed d e] /\
  starts_with "Document '" (not_found c' d') = true /\
  not_found c' d' <> not_initialized_long /\
  not_found c' d' <> not_initialized_short.
Proof.
  split; [|split; [reflexivity|split; by apply (starts_differently "D")]].
  repeat constructor; by apply (starts_differently "Fa").
Qed.

Lemma created_documents (s : firestore) (c i : string) (data : dict) :
  (i, data) ∈ collection_documents (created s c i data) c.
Proof.
  unfold collection_documents. apply elem_of_map_to_list.
  apply stored_fields_created.
Qed.

(** X11.  A document added with at least one field is found by the next query of
    its collection, under the id the add returned, when the limit covers
    the collection and the store raises nothing. *)
Theorem add_then_query_finds_document (w : world) (client : Client) (c : string)
    (data p : dict) (w1 : world) (new_id : string) (n : Z) (q : list dict) (w2 : world)
    (Hdb : db w = Some client)
    (Hfields : data ≠ ∅)
    (Hadd : add_document_to_firestore c data w = (Return p, w1))
    (Hid : p !! "id" = Some (VStr new_id))
    (Hlimit : (length (collection_documents (store w1) c) <= Z.to_nat n)%nat)
    (Hrun : ~ raises (query_try client c n) w1)
    (Hq : query_firestore_collection c n w1 = (Return q, w2)) :
  <["id" := VStr new_id]> data ∈ q.
Proof.
  destruct (outcome_cases (add_try client c data) w)
    as [(p' & w' & Htry)|(e & w' & Hraise)].
  2:{ rewrite (add_handles _ _ _ _ _ _ Hdb Hraise) in Hadd. injection Hadd as <- <-.
      rewrite lookup_insert_ne, lookup_singleton_ne in Hid by done. discriminate. }
  rewrite (add_runs _ _ _ _ _ _ Hdb Htry) in Hadd. injection Hadd as <- <-.
  apply add_try_returns in Htry as (_ & -> & ->).
  rewrite lookup_insert_ne, lookup_insert_eq in Hid by done. injection Hid as <-.
  remember (set_store _ (log_call (CallAdd c data) w)) as w1 eqn:Hw1.
  assert (db w1 = Some client) as Hdb1 by (subst w1; exact Hdb).
  destruct (not_raises_returns _ _ Hrun) as (q' & w3 & Htry).
  rewrite (query_runs _ _ _ _ _ _ Hdb1 Htry) in Hq. injection Hq as <- <-.
  apply query_try_returns in Htry as (_ & -> & _).
  subst w1. simpl in *. rewrite take_ge by by rewrite length_fmap.
  rewrite gather_filter_map. simpl. apply list_elem_of_omap.
  exists (snapshot_of (auto_id (store w) (writes (store w)), data)). split.
  - apply list_elem_of_fmap_2, created_documents.
  - unfold merged. simpl. apply dict_truthy_nonempty in Hfields. by rewrite Hfields.
Qed.

Lemma add_then_query_finds_document_witness :
  exists p w1 q w2,
    add_document_to_firestore "users" {[ "name" := VStr "bob" ]}
      (serving shop no_faults) = (Return p, w1) /\
    query_firestore_collection "users" 50 w1 = (Return q, w2) /\
    {[ "id" := VStr "auto0"; "name" := VStr "bob" ]} ∈ q.
Proof.
  destruct (add_document_to_firestore "users" {[ "name" := VStr "bob" ]}
              (serving shop no_faults)) as [o w1] eqn:Hadd.
  assert (o = Return {[ "success" := VBool true; "id" := VStr "auto0";
                        "message" := VStr "Document added to 'users'" ]}) as ->.
  { apply (f_equal fst) in Hadd. vm_compute in Hadd. by subst o. }
  assert (w1 = (add_document_to_firestore "users" {[ "name" := VStr "bob" ]}
                  (serving shop no_faults)).2) as Hw1 by by rewrite Hadd.
  destruct (query_firestore_collection "users" 50 w1) as [o w2] eqn:Hq.
  destruct o as [q|e].
  2:{ apply (f_equal fst) in Hq. subst w1. vm_compute in Hq. discriminate. }
  do 4 eexists. split; [reflexivity|]. split; [exact Hq|].
  refine (add_then_query_finds_document (serving shop no_faults) _ "users"
            {[ "name" := VStr "bob" ]} _ w1 "auto0" 50 q w2 eq_refl _ Hadd eq_refl
            _ _ Hq).
  - intros Hempty. apply (f_equal (fun m : dict => m !! "name")) in Hempty.
    discriminate.
  - subst w1. vm_compute. lia.
  - intros (e & w' & Hraise). subst w1. vm_compute in Hraise. discriminate.
Defined.




(** ** Further properties of the initialization *)

Lemma firebase_lifespan_unfold (env : environment) (w : world) :
  firebase_lifespan env w
  = let w0 := set_bucket (environ env "FIREBASE_STORAGE_BUCKET") w in
    let path := effective_service_account_path env in
    if path_exists env path then
      match lifespan_try env path w0 with
      | (Return y, w') => (Return y, w')
      | (Raise e, w') => (Return CredentialsInvalid, w')
      end
    else (Return CredentialFileMissing, w0).
Proof.
  unfold firebase_lifespan, bind, try_except, ret. simpl.
  by destruct (path_exists env _).
Qed.

Lemma lifespan_try_cases (env : environment) (path : string) (w : world) :
  (exists client w',
      firestore_client env = Return client /\
      lifespan_try env path w = (Return Ready, w') /\
      db w' = Some client /\ firebase_apps w' = true /\
      store w' = store w /\ calls w' = calls w /\
      firebase_storage_bucket_name w' = firebase_storage_bucket_name w) \/
  (exists e w',
      lifespan_try env path w = (Raise e, w') /\
      db w' = db w /\ store w' = store w /\ calls w' = calls w /\
      firebase_storage_bucket_name w' = firebase_storage_bucket_name w).
Proof.
  unfold lifespan_try, bind, sdk, global_apps, ret.
  destruct (Certificate env path) as [cred|e]; [|right; by do 2 eexists].
  simpl. destruct (firebase_apps w) eqn:Happs; simpl.
  - destruct (firestore_client env) as [client|e]; [|right; by do 2 eexists].
    left. by do 2 eexists.
  - destruct (initialize_app env cred) as [[]|e]; [|right; by do 2 eexists].
    destruct (firestore_client env) as [client|e]; [|right; by do 2 eexists].
    left. by do 2 eexists.
Qed.

(** X13.  [firebase_lifespan] makes no client call and writes nothing to the
    store, records the bucket name, and unless it yields at line 47 it
    leaves [db] as it found it: a failed initialization does not clear a
    handle that was set. *)
Theorem initialization_leaves_store_and_calls (env : environment) (w : world) :
  exists y w',
    firebase_lifespan env w = (Return y, w') /\
    calls w' = calls w /\ store w' = store w /\
    firebase_storage_bucket_name w' = environ env "FIREBASE_STORAGE_BUCKET" /\
    (y <> Ready -> db w' = db w).
Proof.
  rewrite firebase_lifespan_unfold. simpl.
  destruct (path_exists env _); [|by do 2 eexists].
  destruct (lifespan_try_cases env (effective_service_account_path env)
              (set_bucket (environ env "FIREBASE_STORAGE_BUCKET") w))
    as [(client & w' & _ & -> & _ & _ & Hstore & Hcalls & Hbucket)
       |(e & w' & -> & Hdb & Hstore & Hcalls & Hbucket)].
  - do 2 eexists. split; [done|]. by rewrite Hstore, Hcalls, Hbucket.
  - do 2 eexists. split; [done|]. by rewrite Hdb, Hstore, Hcalls, Hbucket.
Qed.

(** X14.  When a Firebase app is registered already, [initialize_app] is not
    called: with a key file that [credentials.Certificate] accepts and a
    [firestore.client()] that returns, the lifespan yields with the handle
    set whatever [initialize_app] would do. *)
Theorem registered_app_is_not_initialized_again (env : environment) (w : world)
    (cred : string) (client : Client)
    (Happs : firebase_apps w = true)
    (Hfile : path_exists env (effective_service_account_path env) = true)
    (Hcert : Certificate env (effective_service_account_path env) = Return cred)
    (Hclient : firestore_client env = Return client) :
  exists w',
    firebase_lifespan env w = (Return Ready, w') /\
    db w' = Some client /\ firebase_apps w' = true.
Proof.
  rewrite firebase_lifespan_unfold. simpl. rewrite Hfile.
  unfold lifespan_try, bind, sdk, global_apps, ret. rewrite Hcert. simpl.
  rewrite Happs. simpl. rewrite Hclient. by eexists.
Qed.

Lemma registered_app_is_not_initialized_again_witness :
  initialize_app app_exists "certificate"
  = Raise (Exception "The default Firebase app already exists.") /\
  exists w',
    firebase_lifespan app_exists (app_registered (loaded blank no_faults))
    = (Return Ready, w') /\
    db w' = Some {| project := "demo" |}.
Proof.
  split; [reflexivity|].
  destruct (registered_app_is_not_initialized_again app_exists
              (app_registered (loaded blank no_faults)) "certificate"
              {| project := "demo" |} eq_refl eq_refl eq_refl eq_refl)
    as (w' & Hrun & Hdb & _).
  eauto.
Defined.

(** X15.  The bucket name is only recorded: two environments that differ in
    nothing but [FIREBASE_STORAGE_BUCKET] make the lifespan yield at the
    same place with the same handle. *)
Theorem bucket_name_does_not_steer_initialization (env1 env2 : environment) (w : world)
    (Hpath : environ env1 "SERVICE_ACCOUNT_KEY_PATH"
             = environ env2 "SERVICE_ACCOUNT_KEY_PATH")
    (Hdir : module_dir env1 = module_dir env2)
    (Hexists : path_exists env1 = path_exists env2)
    (Hcert : Certificate env1 = Certificate env2)
    (Hinit : initialize_app env1 = initialize_app env2)
    (Hclient : firestore_client env1 = firestore_client env2) :
  (firebase_lifespan env1 w).1 = (firebase_lifespan env2 w).1 /\
  db (firebase_lifespan env1 w).2 = db (firebase_lifespan env2 w).2 /\
  firebase_apps (firebase_lifespan env1 w).2 = firebase_apps (firebase_lifespan env2 w).2.
Proof.
  rewrite !firebase_lifespan_unfold. simpl.
  assert (effective_service_account_path env1 = effective_service_account_path env2)
    as -> by (unfold effective_service_account_path; by rewrite Hpath, Hdir).
  rewrite Hexists. destruct (path_exists env2 _); [|done].
  unfold lifespan_try, bind, sdk, global_apps, ret. rewrite Hcert, Hinit, Hclient.
  destruct (Certificate env2 _) as [cred|e]; [|done]. simpl.
  destruct (firebase_apps w); simpl.
  - by destruct (firestore_client env2).
  - destruct (initialize_app env2 cred) as [[]|e]; [|done].
    by destruct (firestore_client env2).
Qed.

Lemma bucket_name_does_not_steer_initialization_witness :
  environ good_key_file "FIREBASE_STORAGE_BUCKET" = None /\
  environ good_key_file_with_bucket "FIREBASE_STORAGE_BUCKET" = Some "demo.appspot.com" /\
  (firebase_lifespan good_key_file (loaded blank no_faults)).1
  = (firebase_lifespan good_key_file_with_bucket (loaded blank no_faults)).1.
Proof.
  split; [reflexivity|]. split; [reflexivity|].
  exact (proj1 (bucket_name_does_not_steer_initialization good_key_file
                  good_key_file_with_bucket (loaded blank no_faults)
                  eq_refl eq_refl eq_refl eq_refl eq_refl eq_refl)).
Defined.

(** ** Serving requests *)

Lemma call_tool_returns (r : request) (w : world) :
  exists p w', call_tool r w = (Return p, w') /\ db w' = db w.
Proof.
  destruct r as [c limit|c data| |c d|c d]; unfold call_tool, bind, ret.
  - pose proof (query_keeps_db c (default 50 limit) w) as Hkeep.
    destruct (db w) as [client|] eqn:Hdb.
    + destruct (outcome_cases (query_try client c (default 50 limit)) w)
        as [(p & w' & H)|(e & w' & H)].
      * rewrite (query_runs _ _ _ _ _ _ Hdb H) in *. by do 2 eexists.
      * rewrite (query_handles _ _ _ _ _ _ Hdb H) in *. by do 2 eexists.
    + with_handle Hdb. by do 2 eexists.
  - pose proof (add_keeps_db c data w) as Hkeep.
    destruct (db w) as [client|] eqn:Hdb.
    + destruct (outcome_cases (add_try client c data) w)
        as [(p & w' & H)|(e & w' & H)].
      * rewrite (add_runs _ _ _ _ _ _ Hdb H) in *. by do 2 eexists.
      * rewrite (add_handles _ _ _ _ _ _ Hdb H) in *. by do 2 eexists.
    + with_handle Hdb. by do 2 eexists.
  - pose proof (list_collections_keeps_db w) as Hkeep.
    destruct (db w) as [client|] eqn:Hdb.
    + destruct (outcome_cases (list_collections_try client) w)
        as [(p & w' & H)|(e & w' & H)].
      * rewrite (list_collections_runs _ _ _ _ Hdb H) in *. by do 2 eexists.
      * rewrite (list_collections_handles _ _ _ _ Hdb H) in *. by do 2 eexists.
    + with_handle Hdb. by do 2 eexists.
  - pose proof (get_keeps_db c d w) as Hkeep.
    destruct (db w) as [client|] eqn:Hdb.
    + destruct (get_try_cases client c d w) as [(e & w' & H)|H].
      * rewrite (get_handles _ _ _ _ _ _ Hdb H) in *. by do 2 eexists.
      * assert (~ raises (get_try client c d) w) as Hno.
        { intros (e & w1 & Hraise). rewrite H in Hraise. discriminate. }
        rewrite (get_runs _ _ _ _ Hdb Hno) in *. by do 2 eexists.
    + with_handle Hdb. by do 2 eexists.
  - pose proof (subcollections_keeps_db c d w) as Hkeep.
    destruct (db w) as [client|] eqn:Hdb.
    + destruct (outcome_cases (subcollections_try client c d) w)
        as [(p & w' & H)|(e & w' & H)].
      * rewrite (subcollections_runs _ _ _ _ _ _ Hdb H) in *. by do 2 eexists.
      * rewrite (subcollections_handles _ _ _ _ _ _ Hdb H) in *. by do 2 eexists.
    + with_handle Hdb. by do 2 eexists.
Qed.

(** X16.  Whatever the handle, the store and the fault plan are, a sequence of
    tool calls is answered to its end: no call raises, every request gets
    one response, and [db] is afterwards what it was before. *)
Theorem every_request_is_answered (requests : list request) (w : world) :
  exists responses w',
    serve requests w = (Return responses, w') /\
    length responses = length requests /\
    db w' = db w.
Proof.
  revert w. induction requests as [|r rest IH]; intros w; simpl.
  - by do 2 eexists.
  - unfold bind, ret.
    destruct (call_tool_returns r w) as (p & w1 & -> & Hdb1).
    destruct (IH w1) as (ps & w2 & -> & Hlen & Hdb2).
    do 2 eexists. split; [done|]. simpl. split; [by rewrite Hlen|congruence].
Qed.

Lemma call_tool_without_handle (r : request) (w : world) :
  db w = None -> call_tool r w = (Return (not_initialized_response r), w).
Proof.
  intros Hdb. destruct r; unfold call_tool, bind at 1; with_handle Hdb; reflexivity.
Qed.

Lemma serve_without_handle (requests : list request) (w : world) :
  db w = None ->
  serve requests w = (Return (not_initialized_response <$> requests), w).
Proof.
  intros Hdb. induction requests as [|r rest IH]; simpl; [done|].
  unfold bind, ret. by rewrite call_tool_without_handle, IH.
Qed.

(** X17.  A server whose initialization did not reach line 47 never touches the
    store: started from the loaded module, every request of every sequence
    is answered with the tool's "not initialized" payload, no client call
    is ever recorded and the store stays as it was. *)
Theorem failed_initialization_never_reaches_store (env : environment) (s : firestore)
    (plan : list call -> call -> option exn) (y : lifespan_yield) (w' : world)
    (requests : list request)
    (Hinit : firebase_lifespan env (loaded s plan) = (Return y, w'))
    (Hfailed : y <> Ready) :
  serve requests w' = (Return (not_initialized_response <$> requests), w') /\
  calls w' = [] /\ store w' = s.
Proof.
  rewrite firebase_lifespan_unfold in Hinit. simpl in Hinit.
  assert (db w' = None /\ calls w' = [] /\ store w' = s) as (Hdb & Hcalls & Hstore).
  { destruct (path_exists env _); [|by injection Hinit as <- <-].
    destruct (lifespan_try_cases env (effective_service_account_path env)
                (set_bucket (environ env "FIREBASE_STORAGE_BUCKET") (loaded s plan)))
      as [(client & w1 & _ & Hrun & _)|(e & w1 & Hrun & Hdb & Hstore & Hcalls & _)];
      rewrite Hrun in Hinit; injection Hinit as <- <-; [done|].
    by rewrite Hdb, Hstore, Hcalls. }
  split; [by apply serve_without_handle|done].
Qed.

Lemma failed_initialization_never_reaches_store_witness :
  exists w',
    firebase_lifespan bad_key_file (loaded shop no_faults)
    = (Return CredentialsInvalid, w') /\
    serve [ReqQuery "users" None; ReqAdd "users" {[ "name" := VStr "bob" ]};
           ReqGet "users" "u2"] w'
    = (Return [RespList [ {[ "error" := VStr not_initialized_long ]} ];
               RespDict {[ "success" := VBool false;
                           "error" := VStr not_initialized_long ]};
               RespDict {[ "error" := VStr not_initialized_short ]}], w') /\
    calls w' = [].
Proof.
  eexists. split; [reflexivity|].
  destruct (failed_initialization_never_reaches_store bad_key_file shop no_faults
              CredentialsInvalid _
              [ReqQuery "users" None; ReqAdd "users" {[ "name" := VStr "bob" ]};
               ReqGet "users" "u2"] eq_refl) as (Hserve & Hcalls & _); [done|].
  split; [exact Hserve|exact Hcalls].
Defined.

(** ** The lifespan as a generator *)

Lemma lifespan_try_yields_ready (env : environment) (path : string) w y w' :
  lifespan_try env path w = (Return y, w') -> y = Ready.
Proof.
  destruct (lifespan_try_cases env path w)
    as [(client & w1 & _ & -> & _)|(e & w1 & -> & _)]; [|discriminate].
  by intros [= <- _].
Qed.

Lemma generator_unfold (env : environment) (w : world) :
  firebase_lifespan_generator env w
  = let w0 := set_bucket (environ env "FIREBASE_STORAGE_BUCKET") w in
    let path := effective_service_account_path env in
    if path_exists env path then
      gcatch (gthen (let (r, w') := lifespan_try env path w0 in Finished r w')
                    (fun at_yield => gyield at_yield))
             (fun e => gyield CredentialsInvalid)
    else gyield CredentialFileMissing w0.
Proof.
  unfold firebase_lifespan_generator, gbind, glift, gtry_except. simpl.
  by destruct (path_exists env _).
Qed.

(** X18.  The generator always reaches a [yield], the one [firebase_lifespan]
    stops at, in the same world; resumed there without an exception, in
    whatever world the server has reached, it finishes without raising and
    leaves that world as it is: the handle is not cleared at shutdown. *)
Theorem generator_yields_then_finishes (env : environment) (w : world) :
  exists y w' resume,
    firebase_lifespan_generator env w = Yielded y w' resume /\
    firebase_lifespan env w = (Return y, w') /\
    forall w1, resume None w1 = Finished (Return tt) w1.
Proof.
  rewrite generator_unfold, firebase_lifespan_unfold. simpl.
  destruct (path_exists env _); [|by do 3 eexists].
  destruct (lifespan_try env _ _) as [[y|e] w0]; simpl; by do 3 eexists.
Qed.

(** X19.  An exception thrown into the generator while it is suspended.  At the
    [yield] of line 47, which stands inside the [try], the exception is
    caught by [except Exception]: the generator does not raise it but
    yields a second time, at line 52, and only from there it finishes or
    lets an exception through.  At the [yield]s of lines 52 and 61 the
    exception leaves the generator. *)
Theorem exception_thrown_at_yield (env : environment) (w : world)
    (y : lifespan_yield) (w' : world)
    (resume : option exn -> world -> generator lifespan_yield unit)
    (Hyield : firebase_lifespan_generator env w = Yielded y w' resume) :
  (y = Ready ->
   forall e w1, exists resume',
     resume (Some e) w1 = Yielded CredentialsInvalid w1 resume' /\
     (forall w2, resume' None w2 = Finished (Return tt) w2) /\
     (forall e' w2, resume' (Some e') w2 = Finished (Raise e') w2)) /\
  (y <> Ready -> forall e w1, resume (Some e) w1 = Finished (Raise e) w1).
Proof.
  rewrite generator_unfold in Hyield. simpl in Hyield.
  destruct (path_exists env _).
  - destruct (lifespan_try env _ _) as [[y0|e0] w0] eqn:Htry; simpl in Hyield.
    + apply lifespan_try_yields_ready in Htry as ->.
      injection Hyield as <- <- <-. split; [|done].
      intros _ e w1. eexists. split; [reflexivity|]. split; reflexivity.
    + injection Hyield as <- <- <-. split; [done|]. reflexivity.
  - injection Hyield as <- <- <-. split; [done|]. reflexivity.
Qed.

Lemma exception_thrown_at_yield_witness :
  exists w' resume resume',
    firebase_lifespan_generator good_key_file (loaded blank no_faults)
    = Yielded Ready w' resume /\
    resume (Some (Exception "tool crashed")) w'
    = Yielded CredentialsInvalid w' resume'.
Proof.
  destruct (firebase_lifespan_generator good_key_file (loaded blank no_faults))
    as [r w'|y w' resume] eqn:Hgen; [vm_compute in Hgen; discriminate|].
  assert (y = Ready) as ->.
  { vm_compute in Hgen. by injection Hgen as <- _ _. }
  destruct (exception_thrown_at_yield good_key_file (loaded blank no_faults)
              Ready w' resume Hgen) as [Hcaught _].
  destruct (Hcaught eq_refl (Exception "tool crashed") w') as (resume' & Hresume & _).
  by exists w', resume, resume'.
Defined.
